(** * Log analyzer agent: the log store, its HTTP API, the schedule registry
      and the log fetch of the analysis tool

    A shallow embedding of
    - [api/lib/logger.js]   ([getTimestamp], [formatMessage], [writeToFile], [logger]),
    - [api/app.js]          (the [/api/write-log] and [/api/logs] handlers),
    - [src/mastra/lib/schedule-manager.ts] ([ScheduleManager.createSchedule]),
    - [src/mastra/tools/log-analyser-tool.ts] ([getLogs]).

    JavaScript values are a [json] tree, [undefined] is [None] of [option json].
    The built-ins of the JavaScript host ([JSON.parse], [JSON.stringify],
    [new Date(x).getTime()], string coercion, the clock) are the fields of the
    class [Host]; the code is embedded over an arbitrary host, and [Reference]
    gives one executable host on which the closed examples are evaluated.
    Code that can throw lives in the monad [js], a state monad over [world]
    whose results are [Returned] or [Threw]. *)

From Stdlib Require Import String Ascii List ZArith Lia Bool Arith.
From Stdlib Require Decimal DecimalString DecimalZ DecimalPos DecimalNat.
Import ListNotations.
Local Open Scope list_scope.
Local Open Scope string_scope.

(** ** JavaScript values *)

Set Warnings "-register-all".

Inductive json : Type :=
| JNull
| JBool (b : bool)
| JNum (n : Z)
| JStr (s : string)
| JArr (items : list json)
| JObj (fields : list (string * json)).

(** [!!v] of JavaScript: [undefined], [null], [false], [0] and [""] are falsy. *)
Definition truthy (v : option json) : bool :=
  match v with
  | None => false
  | Some JNull => false
  | Some (JBool b) => b
  | Some (JNum n) => negb (n =? 0)%Z
  | Some (JStr s) => negb (s =? "")
  | Some (JArr _) => true
  | Some (JObj _) => true
  end.

(** [a || b] where [b] is defined. *)
Definition or_else (a : option json) (b : json) : json :=
  match a with
  | Some v => if truthy a then v else b
  | None => b
  end.

Fixpoint assoc (k : string) (fields : list (string * json)) : option json :=
  match fields with
  | [] => None
  | (k', v) :: rest => if k =? k' then Some v else assoc k rest
  end.

(** [v.k] for a [v] that is not [null]: a property that is not there reads
    as [undefined]; numbers, strings, booleans and arrays have no such own
    property. *)
Definition prop (k : string) (v : json) : option json :=
  match v with
  | JObj fields => assoc k fields
  | _ => None
  end.

(** An object literal some of whose values may be [undefined]; such
    properties do not survive [JSON.stringify], the only consumer here. *)
Fixpoint obj_of (fields : list (string * option json)) : list (string * json) :=
  match fields with
  | [] => []
  | (k, Some v) :: rest => (k, v) :: obj_of rest
  | (_, None) :: rest => obj_of rest
  end.

(** ** Exceptions *)

Inductive exn : Type :=
| SyntaxError (message : string)
| TypeError (message : string)
| Error (message : string)
| SystemError (errno : Z) (code : string) (syscall : string) (path : string).

Definition exn_message (e : exn) : string :=
  match e with
  | SyntaxError m | TypeError m | Error m => m
  | SystemError _ code syscall path =>
      code ++ ": " ++ syscall ++ " '" ++ path ++ "'"
  end.

(** The enumerable own properties of an error, what [JSON.stringify] sees. *)
Definition exn_json (e : exn) : json :=
  match e with
  | SystemError errno code syscall path =>
      JObj [("errno", JNum errno); ("code", JStr code);
            ("syscall", JStr syscall); ("path", JStr path)]
  | _ => JObj []
  end.

(** ** The host *)

Class Host : Type := {
  (** [JSON.parse(text)]: [inl m] is a thrown [SyntaxError] with message [m]. *)
  JSON_parse : string -> string + json;
  (** [JSON.stringify(v, null, indent)]. *)
  JSON_stringify : json -> nat -> string;
  (** [new Date(v).getTime()]: [None] is [NaN]. *)
  Date_getTime : json -> option Z;
  (** string coercion, as in a template literal. *)
  ToString : option json -> string;
  (** [new Date().toISOString()] at the [k]-th reading of the clock. *)
  now_iso : nat -> string;
  (** [Date.now()] at the [k]-th reading of the clock. *)
  now_ms : nat -> Z
}.

(** ** The world of the API process *)

Inductive fstate : Type :=
| Missing
| Unreadable
| File (text : string).

Inductive channel : Type := Log | Info | Warn | Err.

Inductive carg : Type :=
| CStr (s : string)
| CErr (e : exn)
| CReq (from to : option string).

Record world : Type := mkWorld {
  log_file : fstate;
  disk_writable : bool;
  console : list (channel * list carg);
  tick : nat
}.

Definition set_file (f : fstate) (w : world) : world :=
  mkWorld f (disk_writable w) (console w) (tick w).

Definition add_console (line : channel * list carg) (w : world) : world :=
  mkWorld (log_file w) (disk_writable w) (console w ++ [line])%list (tick w).

Definition next_tick (w : world) : world :=
  mkWorld (log_file w) (disk_writable w) (console w) (S (tick w)).

(** ** Computations that may throw *)

Inductive outcome (A : Type) : Type :=
| Returned (a : A)
| Threw (e : exn).
Arguments Returned {A} a.
Arguments Threw {A} e.

Definition js (A : Type) : Type := world -> outcome A * world.

Definition ret {A} (a : A) : js A := fun w => (Returned a, w).

Definition throw {A} (e : exn) : js A := fun w => (Threw e, w).

Definition bind {A B} (m : js A) (k : A -> js B) : js B :=
  fun w =>
    match m w with
    | (Returned a, w') => k a w'
    | (Threw e, w') => (Threw e, w')
    end.

(** [try { body } catch (err) { handler(err) }] *)
Definition try_catch {A} (body : js A) (handler : exn -> js A) : js A :=
  fun w =>
    match body w with
    | (Returned a, w') => (Returned a, w')
    | (Threw e, w') => handler e w'
    end.

Declare Scope js_scope.
Delimit Scope js_scope with js.
Notation "x <- m ;; k" := (bind m (fun x => k))
  (at level 100, m at next level, right associativity) : js_scope.
Notation "m ;;; k" := (bind m (fun _ => k))
  (at level 100, right associativity) : js_scope.
Local Open Scope js_scope.

Definition console_write (ch : channel) (args : list carg) : js unit :=
  fun w => (Returned tt, add_console (ch, args) w).

(** ** [fs] on the log file *)

Definition LOG_FILE : string := "api/logs.json".

Definition ENOENT : exn := SystemError (-2) "ENOENT" "open" LOG_FILE.
Definition EACCES : exn := SystemError (-13) "EACCES" "open" LOG_FILE.

Definition existsSync : js bool :=
  fun w => (Returned (match log_file w with Missing => false | _ => true end), w).

Definition readFileSync : js string :=
  fun w =>
    match log_file w with
    | File text => (Returned text, w)
    | Missing => (Threw ENOENT, w)
    | Unreadable => (Threw EACCES, w)
    end.

(** A write that fails is one that cannot open the file: the file stays
    as it was. *)
Definition writeFileSync (text : string) : js unit :=
  fun w =>
    if disk_writable w then (Returned tt, set_file (File text) w)
    else (Threw EACCES, w).

(** ** api/lib/logger.js *)

Section Logger.
Context {H : Host}.

Definition getTimestamp : js string :=
  fun w => (Returned (now_iso (tick w)), next_tick w).

Definition formatMessage (level : string) (message : option json) : js string :=
  ts <- getTimestamp ;;
  ret ("[" ++ ts ++ "] [" ++ level ++ "] " ++ ToString message).

Record log_arg : Type := mkLog {
  level : string;
  message : option json;
  status : option json
}.

Definition parse (text : string) : js json :=
  match JSON_parse text with
  | inr v => ret v
  | inl m => throw (SyntaxError m)
  end.

(** [existingLogs.reverse()] is a [TypeError] unless [existingLogs] is an array. *)
Definition as_array (v : json) : js (list json) :=
  match v with
  | JArr items => ret items
  | JNull => throw (TypeError "Cannot read properties of null (reading 'reverse')")
  | _ => throw (TypeError "existingLogs.reverse is not a function")
  end.

(** [err?.message || err] *)
Definition message_or_self (e : exn) : carg :=
  if exn_message e =? "" then CErr e else CStr (exn_message e).

(** The log entry built from [log] and the timestamp just read. *)
Definition messageObj (ts : string) (log : log_arg) : json :=
  JObj (obj_of [("timestamp", Some (JStr ts));
                ("level", Some (JStr (level log)));
                ("status", Some (or_else (status log) (JStr "N/A")));
                ("message", message log)]).

Definition writeToFile_body (log : log_arg) : js unit :=
  ts <- getTimestamp ;;
  let messageObj := messageObj ts log in
  exists_ <- existsSync ;;
  existing <- (if exists_ : bool
               then (text <- readFileSync ;; parse text)
               else ret (JArr [])) ;;
  existingLogs <- as_array existing ;;
  let logs := (rev (firstn 488 (rev existingLogs)) ++ [messageObj])%list in
  writeFileSync (JSON_stringify (JArr logs) 2).

Definition writeToFile (log : log_arg) : js unit :=
  try_catch (writeToFile_body log)
    (fun err =>
       console_write Err [CStr "Failed to write to log file:"; message_or_self err]).

Definition logger_with (ch : channel) (lvl : string)
    (message : option json) (status : option json) : js unit :=
  formattedMessage <- formatMessage lvl message ;;
  console_write ch [CStr formattedMessage] ;;;
  writeToFile (mkLog lvl message status).

Definition logger_log := logger_with Log "INFO".
Definition logger_error := logger_with Err "ERROR".

End Logger.

(** ** api/app.js *)

(** What went out as the body: the text written piece by piece with
    [res.write] or piped from a stream, or the value given to [res.json]. *)
Inductive body : Type :=
| Streamed (text : string)
| Sent (v : json).

(** The status and the body of a response; its headers (every response of
    these handlers is [application/json]) are left out. *)
Record response : Type := mkResponse {
  status_code : nat;
  res_body : body
}.

(** The read stream hands the file over in pieces; [cuts] are the sizes
    (less one) of the leading pieces, the rest of the text is the last. *)
Fixpoint split_at (n : nat) (s : string) : string * string :=
  match n, s with
  | S n', String c rest =>
      let (a, b) := split_at n' rest in (String c a, b)
  | _, _ => ("", s)
  end.

Fixpoint chunk_by (cuts : list nat) (text : string) : list string :=
  match text with
  | "" => []
  | _ =>
      match cuts with
      | [] => [text]
      | n :: cuts' =>
          let (a, b) := split_at (S n) text in a :: chunk_by cuts' b
      end
  end.

(** [fs.createReadStream(LOG_FILE)]: the pieces of the ['data'] events
    followed by ['end'], or the ['error'] event of a file that cannot be
    opened, before anything was read. *)
Definition createReadStream (cuts : list nat) (w : world) : exn + list string :=
  match log_file w with
  | File text => inr (chunk_by cuts text)
  | Missing => inl ENOENT
  | Unreadable => inl EACCES
  end.

Section App.
Context {H : Host}.

(** The handler of [/api/write-log]; [req_body] is what the body parser
    left in [req.body], an object or an array. *)
Definition write_log_handler (req_body : json) : js response :=
  let level := prop "level" req_body in
  let message := prop "message" req_body in
  let status := prop "status" req_body in
  if negb (truthy level) || negb (truthy message)
  then ret (mkResponse 400
              (Sent (JObj [("error", JStr "Level and message are required")])))
  else
    logger_log message status ;;;
    ret (mkResponse 201
           (Sent (JObj [("message", JStr "Log written successfully")]))).

Definition isValidParam (param : option string) : bool :=
  match param with
  | Some s => negb (s =? "") && negb (s =? "null") && negb (s =? "undefined")
  | None => false
  end.

(** [isValidParam(p) ? new Date(p).getTime() : null]: [None] is [null],
    [Some None] is [NaN]. *)
Definition bound_time (param : option string) : option (option Z) :=
  match param with
  | Some s => if isValidParam param then Some (Date_getTime (JStr s)) else None
  | None => None
  end.

(** [!t] for a number or [null]. *)
Definition falsy_time (t : option (option Z)) : bool :=
  match t with
  | Some (Some n) => (n =? 0)%Z
  | _ => true
  end.

(** [null] compares as [0], [NaN] compares false. *)
Definition time_value (t : option (option Z)) : option Z :=
  match t with
  | None => Some 0%Z
  | Some t' => t'
  end.

Definition js_ge (a : option Z) (b : option (option Z)) : bool :=
  match a, time_value b with
  | Some x, Some y => (y <=? x)%Z
  | _, _ => false
  end.

Definition js_le (a : option Z) (b : option (option Z)) : bool :=
  match a, time_value b with
  | Some x, Some y => (x <=? y)%Z
  | _, _ => false
  end.

Definition passesFilter (fromTime toTime : option (option Z)) (logTime : option Z) : bool :=
  (falsy_time fromTime || js_ge logTime fromTime)
  && (falsy_time toTime || js_le logTime toTime).

Record stream_state : Type := mkStream {
  buffer : string;
  isFirstLog : bool;
  arrayStarted : bool;
  written : string
}.

(** The body of [logsArray.forEach]: [inl] when reading [log.timestamp]
    throws, which only [null] does. *)
Definition each_log (fromTime toTime : option (option Z)) (log : json)
    (st : stream_state) : exn + stream_state :=
  match log with
  | JNull => inl (TypeError "Cannot read properties of null (reading 'timestamp')")
  | _ =>
      if negb (truthy (prop "timestamp" log)) then inr st
      else
        let logTime :=
          match prop "timestamp" log with
          | Some ts => Date_getTime ts
          | None => None
          end in
        if passesFilter fromTime toTime logTime
        then
          let w1 := if isFirstLog st then written st else written st ++ "," in
          inr (mkStream (buffer st) false (arrayStarted st)
                 (w1 ++ JSON_stringify log 0))
        else inr st
  end.

(** [logsArray.forEach]: what was written before an exception stays
    written, so the state comes back with the exception. *)
Fixpoint forEach_log (fromTime toTime : option (option Z)) (logs : list json)
    (st : stream_state) : option exn * stream_state :=
  match logs with
  | [] => (None, st)
  | log :: rest =>
      match each_log fromTime toTime log st with
      | inr st' => forEach_log fromTime toTime rest st'
      | inl e => (Some e, st)
      end
  end.

(** The ['data'] listener. Its [catch] swallows every exception: a buffer
    that is not yet JSON, a JSON text that is not an array, a [null] among
    the logs; the buffer is then kept, with what was written so far. *)
Definition on_data (fromTime toTime : option (option Z)) (st : stream_state)
    (chunk : string) : stream_state :=
  let buf := buffer st ++ chunk in
  let st0 := mkStream buf (isFirstLog st) (arrayStarted st) (written st) in
  match JSON_parse buf with
  | inl _ => st0
  | inr (JArr logsArray) =>
      let st1 :=
        if arrayStarted st then st0
        else mkStream buf (isFirstLog st) true (written st ++ "[") in
      match forEach_log fromTime toTime logsArray st1 with
      | (None, st2) => mkStream "" (isFirstLog st2) (arrayStarted st2) (written st2)
      | (Some _, st2) => st2
      end
  | inr _ => st0
  end.

(** The ['end'] listener. *)
Definition on_end (st : stream_state) : string :=
  if arrayStarted st then written st ++ "]" else written st ++ "[]".

Definition internal_error : response :=
  mkResponse 500 (Sent (JObj [("error", JStr "Internal Server Error")])).

(** The handler of [/api/logs]; [from] and [to] are [req.query.from] and
    [req.query.to], [None] when the query has no such parameter. Nothing in
    the body of its outer [try] throws synchronously, so its [catch] is not
    taken: the failures of the stream come as ['error'] events, and nothing
    has been sent when they do. *)
Definition logs_handler (from to : option string) (cuts : list nat) : js response :=
  console_write Log [CReq from to] ;;;
  let fromTime := bound_time from in
  let toTime := bound_time to in
  if falsy_time fromTime && falsy_time toTime
  then
    fun w =>
      match createReadStream cuts w with
      | inr chunks => (Returned (mkResponse 200 (Streamed (String.concat "" chunks))), w)
      | inl err =>
          (logger_error (Some (JStr "Error streaming log file:")) (Some (exn_json err)) ;;;
           ret internal_error) w
      end
  else
    fun w =>
      match createReadStream cuts w with
      | inr chunks =>
          let st := fold_left (on_data fromTime toTime) chunks
                      (mkStream "" true false "") in
          (Returned (mkResponse 200 (Streamed (on_end st))), w)
      | inl err =>
          (logger_error (Some (JStr "Error reading log file:")) (Some (exn_json err)) ;;;
           ret internal_error) w
      end.

End App.

(** ** A reference host

    An executable host: JSON text with integer numbers, the escapes
    backslash-quote, backslash-backslash, [\n], [\t] and [\r], the two
    layouts of [JSON.stringify] (compact, and one item per line indented by
    [indent] spaces per level), and dates in the one format
    [YYYY-MM-DDTHH:mm:ss.sssZ] that [toISOString] prints. *)

Module Reference.

Definition dq : ascii := ascii_of_nat 34.
Definition bs : ascii := ascii_of_nat 92.
Definition lf : ascii := ascii_of_nat 10.
Definition tab : ascii := ascii_of_nat 9.
Definition cr : ascii := ascii_of_nat 13.
Definition str1 (c : ascii) : string := String c "".

(** *** Printing *)

Fixpoint escape (s : string) : string :=
  match s with
  | "" => ""
  | String c r =>
      if (c =? dq)%char then String bs (String dq (escape r))
      else if (c =? bs)%char then String bs (String bs (escape r))
      else if (c =? lf)%char then String bs (String "n" (escape r))
      else if (c =? tab)%char then String bs (String "t" (escape r))
      else if (c =? cr)%char then String bs (String "r" (escape r))
      else String c (escape r)
  end.

Definition quote (s : string) : string := String dq (escape s ++ str1 dq).

Fixpoint spaces (n : nat) : string :=
  match n with
  | 0 => ""
  | S n' => String " " (spaces n')
  end.

(** The line break and indentation before an item at nesting [depth]. *)
Definition sep (indent depth : nat) : string :=
  match indent with
  | 0 => ""
  | _ => String lf (spaces (indent * depth))
  end.

Definition colon (indent : nat) : string :=
  match indent with
  | 0 => ":"
  | _ => ": "
  end.

Definition print_Z (n : Z) : string :=
  DecimalString.NilEmpty.string_of_int (Z.to_int n).

(** The items after the first, and the closing bracket. *)
Definition print_items (pr : json -> string) (indent depth : nat)
    : list json -> string :=
  fix more (l : list json) : string :=
    match l with
    | [] => sep indent depth ++ "]"
    | y :: l' => "," ++ sep indent (S depth) ++ pr y ++ more l'
    end.

Definition print_members (pr : json -> string) (indent depth : nat)
    : list (string * json) -> string :=
  fix more (l : list (string * json)) : string :=
    match l with
    | [] => sep indent depth ++ "}"
    | (k, y) :: l' =>
        "," ++ sep indent (S depth) ++ quote k ++ colon indent ++ pr y ++ more l'
    end.

Fixpoint print (indent depth : nat) (v : json) : string :=
  match v with
  | JNull => "null"
  | JBool true => "true"
  | JBool false => "false"
  | JNum n => print_Z n
  | JStr s => quote s
  | JArr [] => "[]"
  | JArr (x :: xs) =>
      "[" ++ sep indent (S depth) ++ print indent (S depth) x
      ++ print_items (print indent (S depth)) indent depth xs
  | JObj [] => "{}"
  | JObj ((k, x) :: xs) =>
      "{" ++ sep indent (S depth) ++ quote k ++ colon indent
      ++ print indent (S depth) x
      ++ print_members (print indent (S depth)) indent depth xs
  end.

Definition stringify (v : json) (indent : nat) : string := print indent 0 v.

(** *** Lexing *)

Inductive token : Type :=
| TLBrack | TRBrack | TLBrace | TRBrace | TComma | TColon
| TNull | TTrue | TFalse
| TNum (n : Z)
| TStr (s : string).

Inductive mode : Type :=
| Idle
| InStr (acc : string)
| InEsc (acc : string)
| InNum (neg : bool) (rdigits : Decimal.uint)
| InWord (rest : string) (t : token).

Definition digit_of (c : ascii) : option (Decimal.uint -> Decimal.uint) :=
  if (c =? "0")%char then Some Decimal.D0
  else if (c =? "1")%char then Some Decimal.D1
  else if (c =? "2")%char then Some Decimal.D2
  else if (c =? "3")%char then Some Decimal.D3
  else if (c =? "4")%char then Some Decimal.D4
  else if (c =? "5")%char then Some Decimal.D5
  else if (c =? "6")%char then Some Decimal.D6
  else if (c =? "7")%char then Some Decimal.D7
  else if (c =? "8")%char then Some Decimal.D8
  else if (c =? "9")%char then Some Decimal.D9
  else None.

Definition is_space (c : ascii) : bool :=
  (c =? " ")%char || (c =? lf)%char || (c =? tab)%char || (c =? cr)%char.

(** The number whose digits were read, last digit first. *)
Definition number (neg : bool) (rdigits : Decimal.uint) : option Z :=
  match rdigits with
  | Decimal.Nil => None
  | _ =>
      let d := Decimal.rev rdigits in
      Some (Z.of_int (if neg then Decimal.Neg d else Decimal.Pos d))
  end.

(** A character met outside any token. *)
Definition idle_step (toks : list token) (c : ascii) : option (mode * list token) :=
  if (c =? "[")%char then Some (Idle, TLBrack :: toks)
  else if (c =? "]")%char then Some (Idle, TRBrack :: toks)
  else if (c =? "{")%char then Some (Idle, TLBrace :: toks)
  else if (c =? "}")%char then Some (Idle, TRBrace :: toks)
  else if (c =? ",")%char then Some (Idle, TComma :: toks)
  else if (c =? ":")%char then Some (Idle, TColon :: toks)
  else if (c =? dq)%char then Some (InStr "", toks)
  else if (c =? "n")%char then Some (InWord "ull" TNull, toks)
  else if (c =? "t")%char then Some (InWord "rue" TTrue, toks)
  else if (c =? "f")%char then Some (InWord "alse" TFalse, toks)
  else if (c =? "-")%char then Some (InNum true Decimal.Nil, toks)
  else if is_space c then Some (Idle, toks)
  else
    match digit_of c with
    | Some k => Some (InNum false (k Decimal.Nil), toks)
    | None => None
    end.

Definition unescape (c : ascii) : option ascii :=
  if (c =? dq)%char then Some dq
  else if (c =? bs)%char then Some bs
  else if (c =? "/")%char then Some "/"%char
  else if (c =? "n")%char then Some lf
  else if (c =? "t")%char then Some tab
  else if (c =? "r")%char then Some cr
  else None.

Definition step (st : mode * list token) (c : ascii) : option (mode * list token) :=
  let (m, toks) := st in
  match m with
  | Idle => idle_step toks c
  | InStr acc =>
      if (c =? dq)%char then Some (Idle, TStr acc :: toks)
      else if (c =? bs)%char then Some (InEsc acc, toks)
      else Some (InStr (acc ++ str1 c), toks)
  | InEsc acc =>
      match unescape c with
      | Some c' => Some (InStr (acc ++ str1 c'), toks)
      | None => None
      end
  | InNum neg rdigits =>
      match digit_of c with
      | Some k => Some (InNum neg (k rdigits), toks)
      | None =>
          match number neg rdigits with
          | Some n => idle_step (TNum n :: toks) c
          | None => None
          end
      end
  | InWord w t =>
      match w with
      | String c' w' =>
          if (c =? c')%char
          then Some (match w' with
                     | "" => (Idle, t :: toks)
                     | _ => (InWord w' t, toks)
                     end)
          else None
      | "" => None
      end
  end.

Definition finish (st : mode * list token) : option (list token) :=
  let (m, toks) := st in
  match m with
  | Idle => Some (List.rev toks)
  | InNum neg rdigits =>
      match number neg rdigits with
      | Some n => Some (List.rev (TNum n :: toks))
      | None => None
      end
  | _ => None
  end.

Fixpoint lex_go (st : mode * list token) (s : string) : option (list token) :=
  match s with
  | "" => finish st
  | String c r =>
      match step st c with
      | Some st' => lex_go st' r
      | None => None
      end
  end.

Definition lex (s : string) : option (list token) := lex_go (Idle, []) s.

(** A text after which a number may end: nothing, or no digit first. *)
Definition delimited (rest : string) : Prop :=
  match rest with
  | "" => True
  | String c _ => digit_of c = None
  end.

(** The tokens of the text of a value. *)
Definition items_tokens (tk : json -> list token) : list json -> list token :=
  fix more (l : list json) : list token :=
    match l with
    | [] => [TRBrack]
    | y :: l' => (TComma :: tk y ++ more l')%list
    end.

Definition members_tokens (tk : json -> list token)
    : list (string * json) -> list token :=
  fix more (l : list (string * json)) : list token :=
    match l with
    | [] => [TRBrace]
    | (k, y) :: l' => (TComma :: TStr k :: TColon :: tk y ++ more l')%list
    end.

Fixpoint tokens (v : json) : list token :=
  match v with
  | JNull => [TNull]
  | JBool true => [TTrue]
  | JBool false => [TFalse]
  | JNum n => [TNum n]
  | JStr s => [TStr s]
  | JArr [] => [TLBrack; TRBrack]
  | JArr (x :: xs) => (TLBrack :: tokens x ++ items_tokens tokens xs)%list
  | JObj [] => [TLBrace; TRBrace]
  | JObj ((k, x) :: xs) =>
      (TLBrace :: TStr k :: TColon :: tokens x ++ members_tokens tokens xs)%list
  end.

(** *** Parsing *)

Fixpoint parse_value (fuel : nat) (ts : list token) : option (json * list token) :=
  match fuel with
  | 0 => None
  | S f =>
      match ts with
      | TNull :: r => Some (JNull, r)
      | TTrue :: r => Some (JBool true, r)
      | TFalse :: r => Some (JBool false, r)
      | TNum n :: r => Some (JNum n, r)
      | TStr s :: r => Some (JStr s, r)
      | TLBrack :: TRBrack :: r => Some (JArr [], r)
      | TLBrack :: r =>
          match parse_value f r with
          | Some (x, r1) =>
              match parse_items f r1 with
              | Some (xs, r2) => Some (JArr (x :: xs), r2)
              | None => None
              end
          | None => None
          end
      | TLBrace :: TRBrace :: r => Some (JObj [], r)
      | TLBrace :: TStr k :: TColon :: r =>
          match parse_value f r with
          | Some (x, r1) =>
              match parse_members f r1 with
              | Some (xs, r2) => Some (JObj ((k, x) :: xs), r2)
              | None => None
              end
          | None => None
          end
      | _ => None
      end
  end
with parse_items (fuel : nat) (ts : list token) : option (list json * list token) :=
  match fuel with
  | 0 => None
  | S f =>
      match ts with
      | TRBrack :: r => Some ([], r)
      | TComma :: r =>
          match parse_value f r with
          | Some (x, r1) =>
              match parse_items f r1 with
              | Some (xs, r2) => Some (x :: xs, r2)
              | None => None
              end
          | None => None
          end
      | _ => None
      end
  end
with parse_members (fuel : nat) (ts : list token)
    : option (list (string * json) * list token) :=
  match fuel with
  | 0 => None
  | S f =>
      match ts with
      | TRBrace :: r => Some ([], r)
      | TComma :: TStr k :: TColon :: r =>
          match parse_value f r with
          | Some (x, r1) =>
              match parse_members f r1 with
              | Some (xs, r2) => Some ((k, x) :: xs, r2)
              | None => None
              end
          | None => None
          end
      | _ => None
      end
  end.

Definition parse_text (s : string) : string + json :=
  match lex s with
  | Some ts =>
      match parse_value (List.length ts) ts with
      | Some (v, []) => inr v
      | _ => inl "Unexpected token in JSON"
      end
  | None => inl "Unexpected token in JSON"
  end.

(** *** Dates *)

Definition digit_val (c : ascii) : option Z :=
  let n := nat_of_ascii c in
  if (48 <=? n)%nat && (n <=? 57)%nat then Some (Z.of_nat (n - 48)) else None.

(** Exactly [n] decimal digits. *)
Fixpoint read_digits (n : nat) (acc : Z) (s : string) : option (Z * string) :=
  match n with
  | 0 => Some (acc, s)
  | S n' =>
      match s with
      | String c r =>
          match digit_val c with
          | Some d => read_digits n' (10 * acc + d)%Z r
          | None => None
          end
      | "" => None
      end
  end.

Definition expect (c : ascii) (s : string) : option string :=
  match s with
  | String c' r => if (c =? c')%char then Some r else None
  | "" => None
  end.

Definition is_leap (y : Z) : bool :=
  ((y mod 4 =? 0) && negb (y mod 100 =? 0) || (y mod 400 =? 0))%Z.

Definition days_in_month (y m : Z) : Z :=
  if (m =? 2)%Z then (if is_leap y then 29 else 28)%Z
  else if ((m =? 4) || (m =? 6) || (m =? 9) || (m =? 11))%Z then 30%Z
  else 31%Z.

(** Days from 1970-01-01 to the given day of the proleptic Gregorian calendar. *)
Definition days_from_civil (y m d : Z) : Z :=
  let y' := (if m <=? 2 then y - 1 else y)%Z in
  let era := (y' / 400)%Z in
  let yoe := (y' - era * 400)%Z in
  let doy := ((153 * (if 2 <? m then m - 3 else m + 9) + 2) / 5 + d - 1)%Z in
  let doe := (yoe * 365 + yoe / 4 - yoe / 100 + doy)%Z in
  (era * 146097 + doe - 719468)%Z.

Definition parse_iso (s : string) : option Z :=
  match read_digits 4 0 s with
  | Some (y, s1) =>
  match expect "-" s1 with Some s2 =>
  match read_digits 2 0 s2 with Some (m, s3) =>
  match expect "-" s3 with Some s4 =>
  match read_digits 2 0 s4 with Some (d, s5) =>
  match expect "T" s5 with Some s6 =>
  match read_digits 2 0 s6 with Some (hh, s7) =>
  match expect ":" s7 with Some s8 =>
  match read_digits 2 0 s8 with Some (mi, s9) =>
  match expect ":" s9 with Some s10 =>
  match read_digits 2 0 s10 with Some (ss, s11) =>
  match expect "." s11 with Some s12 =>
  match read_digits 3 0 s12 with Some (ms, s13) =>
    if (s13 =? "Z")
       && ((1 <=? m) && (m <=? 12) && (1 <=? d) && (d <=? days_in_month y m)
           && (hh <=? 23) && (mi <=? 59) && (ss <=? 59))%Z
    then Some ((((days_from_civil y m d * 24 + hh) * 60 + mi) * 60 + ss) * 1000 + ms)%Z
    else None
  | None => None end | None => None end | None => None end | None => None end
  | None => None end | None => None end | None => None end | None => None end
  | None => None end | None => None end | None => None end | None => None end
  | None => None
  end.

Definition max_time : Z := 8640000000000000.

Definition getTime (v : json) : option Z :=
  match v with
  | JStr s => parse_iso s
  | JNum n => if (Z.abs n <=? max_time)%Z then Some n else None
  | JBool b => Some (if b then 1 else 0)%Z
  | JNull => Some 0%Z
  | _ => None
  end.

(** *** String coercion *)

Fixpoint to_string (v : json) : string :=
  match v with
  | JNull => "null"
  | JBool true => "true"
  | JBool false => "false"
  | JNum n => print_Z n
  | JStr s => s
  | JArr items =>
      let item (x : json) : string :=
        match x with
        | JNull => ""
        | _ => to_string x
        end in
      match items with
      | [] => ""
      | x :: xs =>
          item x ++ (fix more (l : list json) : string :=
                       match l with
                       | [] => ""
                       | y :: l' => "," ++ item y ++ more l'
                       end) xs
      end
  | JObj _ => "[object Object]"
  end.

Definition coerce (v : option json) : string :=
  match v with
  | Some x => to_string x
  | None => "undefined"
  end.

(** *** The clock: one millisecond per reading, from 2025-11-03T10:30:00.000Z *)

Fixpoint zeros (n : nat) : string :=
  match n with
  | 0 => ""
  | S n' => String "0" (zeros n')
  end.

Definition print_nat (n : nat) : string :=
  DecimalString.NilEmpty.string_of_uint (Nat.to_uint n).

Definition pad (width n : nat) : string :=
  zeros (width - String.length (print_nat n)) ++ print_nat n.

Definition clock_iso (k : nat) : string :=
  "2025-11-03T10:30:" ++ pad 2 ((k / 1000) mod 60) ++ "." ++ pad 3 (k mod 1000) ++ "Z".

Definition clock_ms (k : nat) : Z :=
  match parse_iso (clock_iso k) with
  | Some t => t
  | None => 0%Z
  end.

Definition host : Host := {|
  JSON_parse := parse_text;
  JSON_stringify := stringify;
  Date_getTime := getTime;
  ToString := coerce;
  now_iso := clock_iso;
  now_ms := clock_ms
|}.

End Reference.

(** ** src/mastra/lib/schedule-manager.ts *)

Record ScheduleConfig : Type := mkConfig {
  id : string;
  endpoint : string;
  interval : string;
  cronExpression : string;
  authToken : option string;
  timeRange : option string;
  createdAt : string
}.

(** [Map<string, ScheduleConfig>], in insertion order. *)
Definition schedule_map : Type := list (string * ScheduleConfig).

Fixpoint map_set (k : string) (v : ScheduleConfig) (m : schedule_map) : schedule_map :=
  match m with
  | [] => [(k, v)]
  | (k', v') :: rest =>
      if k =? k' then (k, v) :: rest else (k', v') :: map_set k v rest
  end.

Fixpoint map_get (k : string) (m : schedule_map) : option ScheduleConfig :=
  match m with
  | [] => None
  | (k', v) :: rest => if k =? k' then Some v else map_get k rest
  end.

Record ScheduleManager : Type := mkManager {
  schedules : schedule_map;
  scheduleCounter : nat;
  readings : nat
}.

(** What the template of [parseToCronExpression] interpolates; the text
    around it is fixed. *)
Record cron_prompt : Type := mkPrompt {
  prompt_now : string;
  prompt_interval : string
}.

(** [agent.generate(prompt)]: the promise rejects with [inl e], or resolves
    to a response whose [text] may be [undefined]. *)
Definition agent : Type := cron_prompt -> exn + option string.

Record created : Type := mkCreated {
  created_id : string;
  created_cronExpression : string;
  created_message : string
}.

(** [String.prototype.trim] strips the white space and the line
    terminators of ECMAScript. A text is held as the bytes of its UTF-8
    encoding, so a character of white space is one byte (U+0009 to U+000D,
    U+0020), two (U+00A0) or three (U+1680, U+2000 to U+200A, U+2028,
    U+2029, U+202F, U+205F, U+3000, U+FEFF). *)
Definition is_ws (c : ascii) : bool :=
  let n := nat_of_ascii c in
  ((9 <=? n) && (n <=? 13) || (n =? 32))%nat.

(** U+00A0 is [C2 A0]. *)
Definition is_ws2 (c d : ascii) : bool :=
  ((nat_of_ascii c =? 194) && (nat_of_ascii d =? 160))%nat.

(** U+1680 is [E1 9A 80]; U+2000 to U+200A are [E2 80 80] to [E2 80 8A];
    U+2028, U+2029 and U+202F are [E2 80 A8], [E2 80 A9] and [E2 80 AF];
    U+205F is [E2 81 9F]; U+3000 is [E3 80 80]; U+FEFF is [EF BB BF]. *)
Definition is_ws3 (c d e : ascii) : bool :=
  let x := nat_of_ascii c in
  let y := nat_of_ascii d in
  let z := nat_of_ascii e in
  ((x =? 225) && (y =? 154) && (z =? 128)
   || (x =? 226) && (y =? 128)
      && ((128 <=? z) && (z <=? 138) || (z =? 168) || (z =? 169) || (z =? 175))
   || (x =? 226) && (y =? 129) && (z =? 159)
   || (x =? 227) && (y =? 128) && (z =? 128)
   || (x =? 239) && (y =? 187) && (z =? 191))%nat.

Fixpoint trim_start (s : string) : string :=
  match s with
  | String c r =>
      if is_ws c then trim_start r
      else
        match r with
        | String d r1 =>
            if is_ws2 c d then trim_start r1
            else
              match r1 with
              | String e r2 => if is_ws3 c d e then trim_start r2 else s
              | "" => s
              end
        | "" => s
        end
  | "" => ""
  end.

(** A text of white space only. *)
Fixpoint all_ws (s : string) : bool :=
  match s with
  | String c r =>
      if is_ws c then all_ws r
      else
        match r with
        | String d r1 =>
            if is_ws2 c d then all_ws r1
            else
              match r1 with
              | String e r2 => is_ws3 c d e && all_ws r2
              | "" => false
              end
        | "" => false
        end
  | "" => true
  end.

Fixpoint trim_end (s : string) : string :=
  match s with
  | String c r => if all_ws s then "" else String c (trim_end r)
  | "" => ""
  end.

Definition trim (s : string) : string := trim_end (trim_start s).

(** The [replace] of [parseToCronExpression]: every backquote (96),
    apostrophe (39) and double quote (34) is removed. *)
Fixpoint strip_quotes (s : string) : string :=
  match s with
  | String c r =>
      let n := nat_of_ascii c in
      if ((n =? 96) || (n =? 39) || (n =? 34))%nat
      then strip_quotes r
      else String c (strip_quotes r)
  | "" => ""
  end.

Section Schedules.
Context {H : Host}.

Definition parseToCronExpression (interval : string) (ag : agent)
    (m : ScheduleManager) : outcome string * ScheduleManager :=
  let prompt := mkPrompt (now_iso (readings m)) interval in
  let m1 := mkManager (schedules m) (scheduleCounter m) (S (readings m)) in
  match ag prompt with
  | inl e => (Threw e, m1)
  | inr None =>
      (Threw (TypeError "Cannot read properties of undefined (reading 'trim')"), m1)
  | inr (Some text) => (Returned (strip_quotes (trim text)), m1)
  end.

Definition q (s : string) : string :=
  String (ascii_of_nat 34) (s ++ String (ascii_of_nat 34) "").

Definition nl : string := String (ascii_of_nat 10) "".

Definition created_text (scheduleId cronExpression endpoint interval : string) : string :=
  "Schedule created successfully! Schedule ID: " ++ scheduleId ++ ". " ++ nl
  ++ nl
  ++ "To activate this schedule, you need to set up a cron job or scheduled trigger on your deployment platform:" ++ nl
  ++ nl
  ++ "**Option 1: Vercel Cron (for Vercel deployments)**" ++ nl
  ++ "Add to vercel.json:" ++ nl
  ++ "{" ++ nl
  ++ "  " ++ q "crons" ++ ": [{" ++ nl
  ++ "    " ++ q "path" ++ ": " ++ q "/api/workflows/log-monitoring-workflow" ++ "," ++ nl
  ++ "    " ++ q "schedule" ++ ": " ++ q cronExpression ++ nl
  ++ "  }]" ++ nl
  ++ "}" ++ nl
  ++ nl
  ++ "**Option 2: AWS EventBridge (for AWS deployments)**" ++ nl
  ++ "Create an EventBridge rule with schedule expression: cron(" ++ cronExpression ++ ")" ++ nl
  ++ nl
  ++ "**Option 3: Inngest (recommended for complex workflows)**" ++ nl
  ++ "See: https://mastra.ai/docs/workflows/inngest-workflow" ++ nl
  ++ nl
  ++ "The schedule will monitor " ++ endpoint ++ " " ++ interval
  ++ " (" ++ cronExpression ++ ").".

(** [options?.timeRange || "last 1 hour"] *)
Definition timeRange_or_default (timeRange : option string) : string :=
  match timeRange with
  | Some s => if s =? "" then "last 1 hour" else s
  | None => "last 1 hour"
  end.

Definition createSchedule (endpoint interval : string) (ag : agent)
    (opt_authToken opt_timeRange : option string)
    (m : ScheduleManager) : outcome created * ScheduleManager :=
  match parseToCronExpression interval ag m with
  | (Returned cronExpression, m1) =>
      let counter := S (scheduleCounter m1) in
      let scheduleId :=
        "schedule-" ++ ToString (Some (JNum (Z.of_nat counter)))
        ++ "-" ++ ToString (Some (JNum (now_ms (readings m1)))) in
      let config :=
        mkConfig scheduleId endpoint interval cronExpression
          opt_authToken (Some (timeRange_or_default opt_timeRange))
          (now_iso (S (readings m1))) in
      (Returned (mkCreated scheduleId cronExpression
                   (created_text scheduleId cronExpression endpoint interval)),
       mkManager (map_set scheduleId config (schedules m1)) counter
         (S (S (readings m1))))
  | (Threw error, m1) =>
      (Threw (Error ("Failed to create schedule: " ++ exn_message error)), m1)
  end.

(** What [listSchedules] shows of a configuration: all but the token. *)
Record listed : Type := mkListed {
  listed_id : string;
  listed_endpoint : string;
  listed_interval : string;
  listed_cronExpression : string;
  listed_createdAt : string;
  listed_timeRange : option string
}.

Definition listSchedules (m : ScheduleManager) : list listed :=
  map (fun schedule : ScheduleConfig =>
         mkListed (id schedule) (endpoint schedule) (interval schedule)
           (cronExpression schedule) (createdAt schedule) (timeRange schedule))
    (map snd (schedules m)).

Definition getSchedule (scheduleId : string) (m : ScheduleManager)
    : option ScheduleConfig :=
  map_get scheduleId (schedules m).

End Schedules.

(** ** src/mastra/tools/log-analyser-tool.ts: [getLogs] *)

Record fetch_request : Type := mkRequest {
  req_url : string;
  req_method : string;
  req_headers : list (string * string)
}.

Record fetch_response : Type := mkFetched {
  resp_status : nat;
  resp_statusText : string;
  (** [None] is a [null] body; otherwise the decoded pieces the reader yields. *)
  resp_body : option (list string)
}.

(** [response.ok] *)
Definition resp_ok (r : fetch_response) : bool :=
  (200 <=? resp_status r)%nat && (resp_status r <=? 299)%nat.

(** [fetch]: [inl e] is a rejected promise. *)
Definition network : Type := fetch_request -> exn + fetch_response.

Section LogFetch.
Context {H : Host}.

(** A [string | null] inside a template literal. *)
Definition or_null (s : option string) : string :=
  match s with
  | Some x => x
  | None => "null"
  end.

Definition status_text (r : fetch_response) : string :=
  ToString (Some (JNum (Z.of_nat (resp_status r)))) ++ " " ++ resp_statusText r.

(** The request [getLogs] sends. *)
Definition logs_request (from to : option string) (url : string)
    (authToken : option string) : fetch_request :=
  mkRequest (url ++ "?from=" ++ or_null from ++ "&to=" ++ or_null to) "POST"
    (("Content-Type", "application/json")
     :: match authToken with
        | Some t => if t =? "" then [] else [("Authorization", "Bearer " ++ t)]
        | None => []
        end).

Definition getLogs (from to : option string) (url : string)
    (authToken : option string) (fetch : network) : outcome json :=
  match fetch (logs_request from to url authToken) with
  | inl e => Threw e
  | inr response =>
      if negb (resp_ok response)
      then
        if ((resp_status response =? 401) || (resp_status response =? 403))%nat
        then Threw (Error ("Authentication required: " ++ status_text response
                           ++ ". Please provide a valid auth token."))
        else Threw (Error ("Failed to fetch logs: " ++ status_text response))
      else
        match resp_body response with
        | None => Threw (Error "Response body is null")
        | Some pieces =>
            let logs := String.concat "" pieces in
            match JSON_parse logs with
            | inr v => Returned v
            | inl m => Threw (SyntaxError m)
            end
        end
  end.

(** How a caller tells the two failures apart: by the message. *)
Definition auth_required (e : exn) : bool :=
  String.prefix "Authentication required" (exn_message e).

Definition fetch_failed (e : exn) : bool :=
  String.prefix "Failed to fetch logs" (exn_message e).

End LogFetch.

(** ** src/mastra/lib/schedule-manager.ts: cancelling *)

(** [Map.delete] *)
Fixpoint map_delete (k : string) (m : schedule_map) : schedule_map :=
  match m with
  | [] => []
  | (k', v) :: rest => if k =? k' then rest else (k', v) :: map_delete k rest
  end.

(** The result of a cancellation; [cancelSchedule] has no count. *)
Record cancel_result : Type := mkCancel {
  cancel_success : bool;
  cancel_message : string;
  cancel_count : option nat
}.

Definition platform_note : string :=
  String (ascii_of_nat 10) "" ++ String (ascii_of_nat 10) ""
  ++ "Note: This only removes the schedules from Mastra's tracking. You must also remove the corresponding cron jobs from your deployment platform to stop the actual execution.".

Section ScheduleCancel.
Context {H : Host}.

Definition cancelSchedule (scheduleId : string) (m : ScheduleManager)
    : cancel_result * ScheduleManager :=
  match map_get scheduleId (schedules m) with
  | None =>
      (mkCancel false
         ("Schedule " ++ scheduleId
          ++ " not found. Use listSchedules to see active schedules.")
         None,
       m)
  | Some config =>
      (mkCancel true
         ("Schedule " ++ scheduleId ++ " removed successfully. It was monitoring "
          ++ endpoint config ++ " " ++ interval config ++ ". " ++ nl
          ++ "      " ++ nl
          ++ "Note: This only removes the schedule from Mastra's tracking. You must also remove the corresponding cron job from your deployment platform (Vercel, AWS, etc.) to stop the actual execution.")
         None,
       mkManager (map_delete scheduleId (schedules m)) (scheduleCounter m)
         (readings m))
  end.

(** [Array.from(this.schedules.values()).filter(...)] *)
Definition schedules_of_endpoint (ep : string) (m : ScheduleManager)
    : list ScheduleConfig :=
  filter (fun schedule => endpoint schedule =? ep) (map snd (schedules m)).

Definition count_text (n : nat) : string :=
  ToString (Some (JNum (Z.of_nat n))).

Definition cancelSchedulesByEndpoint (ep : string) (m : ScheduleManager)
    : cancel_result * ScheduleManager :=
  let schedulesToCancel := schedules_of_endpoint ep m in
  match schedulesToCancel with
  | [] => (mkCancel false ("No schedules found for endpoint: " ++ ep) (Some 0), m)
  | _ =>
      (mkCancel true
         ("Cancelled " ++ count_text (List.length schedulesToCancel)
          ++ " schedule(s) for " ++ ep ++ ". " ++ platform_note)
         (Some (List.length schedulesToCancel)),
       mkManager
         (fold_left (fun remaining schedule => map_delete (id schedule) remaining)
            schedulesToCancel (schedules m))
         (scheduleCounter m) (readings m))
  end.

Definition cancelAllSchedules (m : ScheduleManager)
    : cancel_result * ScheduleManager :=
  let count := List.length (schedules m) in
  match count with
  | 0 => (mkCancel false "No active schedules to cancel" (Some 0), m)
  | _ =>
      (mkCancel true
         ("All " ++ count_text count ++ " schedule(s) removed successfully. "
          ++ platform_note)
         (Some count),
       mkManager [] (scheduleCounter m) (readings m))
  end.

End ScheduleCancel.

(** ** src/mastra/tools/cron-tools.ts *)

Record create_context : Type := mkCreateContext {
  ctx_endpoint : string;
  ctx_interval : string;
  ctx_authToken : option string;
  ctx_timeRange : option string
}.

(** [{success: true, ...result}] or [{success: false, error}]. *)
Inductive create_tool_result : Type :=
| CreateSucceeded (result : created)
| CreateFailed (error : string).


Record list_tool_result : Type := mkListResult {
  list_success : bool;
  list_message : string;
  list_schedules : list listed
}.

(** A string that is there and is not empty. *)
Definition given (s : option string) : option string :=
  match s with
  | Some x => if x =? "" then None else Some x
  | None => None
  end.

Section CronTools.
Context {H : Host}.

(** [createScheduleTool.execute]; [ag] is [mastra?.getAgent("logAnalyserAgent")],
    [None] when there is no such agent. *)
Definition createScheduleTool (context : create_context) (ag : option agent)
    (m : ScheduleManager) : create_tool_result * ScheduleManager :=
  match ag with
  | None => (CreateFailed "Log analyser agent not found in Mastra instance", m)
  | Some a =>
      match createSchedule (ctx_endpoint context) (ctx_interval context) a
              (ctx_authToken context) (ctx_timeRange context) m with
      | (Returned result, m') => (CreateSucceeded result, m')
      | (Threw error, m') => (CreateFailed (exn_message error), m')
      end
  end.


Definition listSchedulesTool (m : ScheduleManager) : list_tool_result :=
  let schedules := listSchedules m in
  match schedules with
  | [] => mkListResult true "No active schedules" []
  | _ =>
      mkListResult true
        ("Found " ++ count_text (List.length schedules) ++ " active schedule(s)")
        schedules
  end.

End CronTools.

(** ** src/mastra/tools/log-analyser-tool.ts: the tool *)

(** [text.match(/\{[\s\S]*?\}/)] and [text.match(/\{[\s\S]*\}/)]: from the
    first opening brace to the first, or to the last, closing brace after
    it. *)
Fixpoint after_open (s : string) : option string :=
  match s with
  | "" => None
  | String c r => if (c =? "{")%char then Some r else after_open r
  end.

Fixpoint to_first_close (s : string) : option string :=
  match s with
  | "" => None
  | String c r =>
      if (c =? "}")%char then Some "}"
      else match to_first_close r with
           | Some t => Some (String c t)
           | None => None
           end
  end.

Fixpoint to_last_close (s : string) : option string :=
  match s with
  | "" => None
  | String c r =>
      match to_last_close r with
      | Some t => Some (String c t)
      | None => if (c =? "}")%char then Some "}" else None
      end
  end.

Definition match_lazy (text : string) : option string :=
  match after_open text with
  | Some r =>
      match to_first_close r with
      | Some t => Some (String "{" t)
      | None => None
      end
  | None => None
  end.

Definition match_greedy (text : string) : option string :=
  match after_open text with
  | Some r =>
      match to_last_close r with
      | Some t => Some (String "{" t)
      | None => None
      end
  | None => None
  end.

(** [{from, to}]: [None] is [null]. *)
Record time_range : Type := mkRange {
  range_from : option json;
  range_to : option json
}.

(** What the two templates of the tool interpolate; the text around it is
    fixed. The first template also shows the year of its [now]. *)
Inductive analyser_prompt : Type :=
| TimeRangePrompt (now : string) (timeRangeStr : string)
| AnalysisPrompt (endpoint : string) (timeRange : time_range) (logCount : nat)
    (analysisTimestamp : string) (logs : string) (analyzedAt : string).

(** [agent.generate(prompt)], as for [agent]. *)
Definition analyser : Type := analyser_prompt -> exn + option string.

(** [v.k] where [v] may be [null]. *)
Definition get_prop (k : string) (v : json) : exn + option json :=
  match v with
  | JNull => inl (TypeError ("Cannot read properties of null (reading '" ++ k ++ "')"))
  | _ => inr (prop k v)
  end.

Section AnalyserTool.
Context {H : Host}.

(** The body of the [try] of [parseTimeRangeWithAI]. *)
Definition read_time_range (text : option string) : exn + time_range :=
  match text with
  | None => inl (TypeError "Cannot read properties of undefined (reading 'match')")
  | Some t =>
      match match_lazy t with
      | None => inl (Error "No JSON found in AI response")
      | Some jsonMatch =>
          match JSON_parse jsonMatch with
          | inl m => inl (SyntaxError m)
          | inr parsed =>
              match get_prop "from" parsed with
              | inl e => inl e
              | inr from =>
                  if negb (truthy from)
                  then inl (Error "Invalid time range format from AI")
                  else
                    match get_prop "to" parsed with
                    | inl e => inl e
                    | inr to =>
                        if negb (truthy to)
                        then inl (Error "Invalid time range format from AI")
                        else inr (mkRange from to)
                    end
              end
          end
      end
  end.

(** [k] counts the readings of the clock. *)
Definition parseTimeRangeWithAI (ag : analyser) (timeRangeStr : option string)
    (k : nat) : outcome time_range * nat :=
  match given timeRangeStr with
  | None => (Returned (mkRange None None), k)
  | Some text =>
      match ag (TimeRangePrompt (now_iso k) text) with
      | inl e => (Threw e, S k)
      | inr result_text =>
          match read_time_range result_text with
          | inr range => (Returned range, S k)
          | inl error =>
              (Threw (Error ("Failed to parse time range " ++ q text ++ ": "
                             ++ exn_message error)),
               S k)
          end
      end
  end.

(** A bound of the range inside the template of the URL. *)
Definition bound_text (bound : option json) : option string :=
  match bound with
  | Some v => Some (ToString (Some v))
  | None => None
  end.

(** The body of the [try] of [execute]. *)
Definition read_analysis (text : option string) : exn + json :=
  match text with
  | None => inl (TypeError "Cannot read properties of undefined (reading 'match')")
  | Some t =>
      match match_greedy t with
      | None => inl (Error "No JSON found in response")
      | Some jsonMatch =>
          match JSON_parse jsonMatch with
          | inl m => inl (SyntaxError m)
          | inr analysis => inr analysis
          end
      end
  end.

(** [logAnalyserTool.execute]; [ag] is [mastra?.getAgent("logAnalyserAgent")]. *)
Definition logAnalyserTool (endpoint : string) (authToken timeRangeStr : option string)
    (ag : option analyser) (fetch : network) (k : nat) : outcome json * nat :=
  match ag with
  | None => (Threw (Error "Log analyser agent not found in Mastra instance"), k)
  | Some a =>
      match parseTimeRangeWithAI a timeRangeStr k with
      | (Threw e, k1) => (Threw e, k1)
      | (Returned timeRange, k1) =>
          match getLogs (bound_text (range_from timeRange))
                  (bound_text (range_to timeRange)) endpoint authToken fetch with
          | Threw e => (Threw e, k1)
          | Returned logsData =>
              let logs := JSON_stringify logsData 2 in
              let logCount :=
                match logsData with
                | JArr items => List.length items
                | _ => 0
                end in
              match a (AnalysisPrompt endpoint timeRange logCount (now_iso k1) logs
                         (now_iso (S k1))) with
              | inl e => (Threw e, S (S k1))
              | inr result_text =>
                  match read_analysis result_text with
                  | inr analysis => (Returned analysis, S (S k1))
                  | inl error =>
                      (Threw (Error ("Failed to parse agent response: "
                                     ++ exn_message error)),
                       S (S k1))
                  end
              end
          end
      end
  end.

End AnalyserTool.

(** ** src/mastra/workflows/log-monitoring-workflow.ts *)

Record step_input : Type := mkStepInput {
  input_endpoint : string;
  input_authToken : option string;
  input_timeRange : option string
}.

Section Workflow.
Context {H : Host}.

(** [analyzeLogsStep.execute] *)
Definition analyzeLogsStep (inputData : option step_input) (ag : option analyser)
    (fetch : network) (k : nat) : outcome json * nat :=
  match inputData with
  | None => (Threw (Error "Input data not found"), k)
  | Some input =>
      logAnalyserTool (input_endpoint input) (input_authToken input)
        (Some match given (input_timeRange input) with
              | Some range => range
              | None => "last 1 hour"
              end)
        ag fetch k
  end.

End Workflow.

(** ** src/mastra/routes/a2a-agent-route.ts *)

(** A message as the route hands it to the agent. *)
Record mastra_message : Type := mkMessage {
  message_role : option json;
  message_content : string
}.

(** What the route reads of the response of [agent.generate]. *)
Record generated : Type := mkGenerated {
  generated_text : option string;
  generated_toolResults : option (list json)
}.

(** [agent.generate(messages)]: [inl e] is a rejected promise. *)
Definition a2a_agent : Type := list mastra_message -> exn + generated.

(** [mastra.getAgent(agentId)]: it may throw, or have no agent to give. *)
Definition agent_registry : Type := string -> exn + option a2a_agent.

(** What the route prints: the line of [console.log] about a webhook, the
    line of [console.error] of its [catch]. *)
Inductive route_line : Type :=
| WebhookLine (url : json)
| RouteErrorLine (error : exn).

(** [v === s] for a string [s], and [v === false]. *)
Definition is_string (s : string) (v : option json) : bool :=
  match v with
  | Some (JStr x) => x =? s
  | _ => false
  end.

Definition is_false (v : option json) : bool :=
  match v with
  | Some (JBool false) => true
  | _ => false
  end.

(** [v?.k] *)
Definition opt_prop (k : string) (v : option json) : option json :=
  match v with
  | None | Some JNull => None
  | Some x => prop k x
  end.

(** [a || b] where [b] may be [undefined]. *)
Definition or_opt (a b : option json) : option json :=
  if truthy a then a else b.

(** [Array.prototype.map] with a callback that may throw: the first
    exception ends it. *)
Fixpoint map_exn {A B} (f : A -> exn + B) (l : list A) : exn + list B :=
  match l with
  | [] => inr []
  | x :: rest =>
      match f x with
      | inl e => inl e
      | inr y =>
          match map_exn f rest with
          | inl e => inl e
          | inr ys => inr (y :: ys)
          end
      end
  end.

Definition reading_of_null (k : string) : exn :=
  TypeError ("Cannot read properties of null (reading '" ++ k ++ "')").

Definition reading_of_undefined (k : string) : exn :=
  TypeError ("Cannot read properties of undefined (reading '" ++ k ++ "')").

(** The error response of JSON-RPC, with or without [data]. *)
Definition rpc_error (rpc_id : json) (code : Z) (text : string)
    (data : option json) : json :=
  JObj [("jsonrpc", JStr "2.0");
        ("id", rpc_id);
        ("error", JObj (obj_of [("code", Some (JNum code));
                                ("message", Some (JStr text));
                                ("data", data)]))].

Section A2ARoute.
Context {H : Host}.

(** [randomUUID()], the [n]-th time the request calls it. *)
Variable randomUUID : nat -> string.

(** The callback over [msg.parts] that builds the content. *)
Definition part_content (part : json) : exn + option json :=
  match part with
  | JNull => inl (reading_of_null "kind")
  | _ =>
      if is_string "text" (prop "kind" part) then inr (prop "text" part)
      else if is_string "data" (prop "kind" part)
      then inr match prop "data" part with
               | Some data => Some (JStr (JSON_stringify data 0))
               | None => None
               end
      else inr (Some (JStr ""))
  end.

(** An element under [Array.prototype.join]: [undefined] and [null] are
    empty. *)
Definition join_item (v : option json) : string :=
  match v with
  | None | Some JNull => ""
  | Some x => ToString (Some x)
  end.

(** [msg.parts?.map(...).join(newline) || ""] *)
Definition content_of (msg : json) : exn + string :=
  match prop "parts" msg with
  | None | Some JNull => inr ""
  | Some (JArr parts) =>
      match map_exn part_content parts with
      | inl e => inl e
      | inr texts => inr (String.concat nl (map join_item texts))
      end
  | Some _ => inl (TypeError "msg.parts?.map is not a function")
  end.

(** The callback that builds [mastraMessages]. *)
Definition to_mastra (msg : json) : exn + mastra_message :=
  match msg with
  | JNull => inl (reading_of_null "role")
  | _ =>
      match content_of msg with
      | inl e => inl e
      | inr content => inr (mkMessage (prop "role" msg) content)
      end
  end.

(** The callback over [msg.parts] that builds the history. *)
Definition history_part (part : json) : exn + json :=
  match part with
  | JNull => inl (reading_of_null "kind")
  | _ =>
      inr (JObj [("kind", or_else (prop "kind" part) (JStr "text"));
                 ("text", or_else (prop "text" part) (JStr ""));
                 ("data", or_else (prop "data" part) JNull);
                 ("file_url", or_else (prop "file_url" part) JNull)])
  end.

(** The callback that builds the history; [n] counts the calls of
    [randomUUID]. *)
Definition history_item (finalTaskId : json) (msg : json) (n : nat)
    : exn + json * nat :=
  match msg with
  | JNull => inl (reading_of_null "role")
  | _ =>
      match prop "parts" msg with
      | None => inl (reading_of_undefined "map")
      | Some JNull => inl (reading_of_null "map")
      | Some (JArr parts) =>
          match map_exn history_part parts with
          | inl e => inl e
          | inr parts' =>
              inr (JObj (obj_of
                           [("kind", Some (JStr "message"));
                            ("role", prop "role" msg);
                            ("parts", Some (JArr parts'));
                            ("messageId",
                             Some (or_else (prop "messageId" msg) (JStr (randomUUID n))));
                            ("taskId", Some (or_else (prop "taskId" msg) finalTaskId));
                            ("metadata", Some (or_else (prop "metadata" msg) JNull))]),
                   if truthy (prop "messageId" msg) then n else S n)
          end
      | Some _ => inl (TypeError "msg.parts.map is not a function")
      end
  end.

Fixpoint history_of (finalTaskId : json) (msgs : list json) (n : nat)
    : exn + list json * nat :=
  match msgs with
  | [] => inr ([], n)
  | msg :: rest =>
      match history_item finalTaskId msg n with
      | inl e => inl e
      | inr (item, n1) =>
          match history_of finalTaskId rest n1 with
          | inl e => inl e
          | inr (items, n2) => inr (item :: items, n2)
          end
      end
  end.

(** The part of a tool result. *)
Definition tool_part (result : json) : json :=
  JObj [("kind", JStr "data"); ("text", JStr ""); ("data", result);
        ("file_url", JNull)].

(** The message of the agent, as it stands in the status and at the end of
    the history. *)
Definition agent_message (parts : json) (responseMessageId : string)
    (finalTaskId : json) (messageMetadata : option json) : json :=
  JObj [("kind", JStr "message");
        ("role", JStr "agent");
        ("parts", parts);
        ("messageId", JStr responseMessageId);
        ("taskId", finalTaskId);
        ("metadata", or_else messageMetadata JNull)].

(** The handler from the messages on, the agent found: [k] counts the
    readings of the clock. *)
Definition answer (agentId : string) (agent : a2a_agent) (requestId : json)
    (messagesList : list json)
    (conversationContext currentTaskId messageMetadata configuration : option json)
    (k : nat) : exn + response * list route_line :=
  match map_exn to_mastra messagesList with
  | inl e => inl e
  | inr mastraMessages =>
      match agent mastraMessages with
      | inl e => inl e
      | inr response =>
          let agentText :=
            match generated_text response with
            | Some text => text
            | None => ""
            end in
          let agentResponseParts :=
            JArr [JObj [("kind", JStr "text"); ("text", JStr agentText);
                        ("data", JNull); ("file_url", JNull)]] in
          let first :=
            JObj [("artifactId", JStr (randomUUID 0));
                  ("name", JStr (agentId ++ "Response"));
                  ("parts", agentResponseParts)] in
          let artifacts :=
            match generated_toolResults response with
            | Some (result :: results) =>
                [first;
                 JObj [("artifactId", JStr (randomUUID 1));
                       ("name", JStr "ToolResults");
                       ("parts", JArr (map tool_part (result :: results)))]]
            | _ => [first]
            end in
          let n1 := List.length artifacts in
          let responseMessageId := randomUUID n1 in
          let finalTaskId := or_else currentTaskId (JStr (randomUUID (S n1))) in
          let n2 := if truthy currentTaskId then S n1 else S (S n1) in
          match history_of finalTaskId messagesList n2 with
          | inl e => inl e
          | inr (items, n3) =>
              let reply :=
                agent_message agentResponseParts responseMessageId finalTaskId
                  messageMetadata in
              let a2aResponse :=
                JObj [("jsonrpc", JStr "2.0");
                      ("id", requestId);
                      ("result",
                       JObj [("id", finalTaskId);
                             ("contextId",
                              or_else conversationContext (JStr (randomUUID n3)));
                             ("status",
                              JObj [("state", JStr "completed");
                                    ("timestamp", JStr (now_iso k));
                                    ("message", reply)]);
                             ("artifacts", JArr artifacts);
                             ("history", JArr (items ++ [reply])%list);
                             ("kind", JStr "task")]);
                      ("error", JNull)] in
              let url := opt_prop "url" (opt_prop "pushNotificationConfig" configuration) in
              inr (mkResponse 200 (Sent a2aResponse),
                   if is_false (opt_prop "blocking" configuration) && truthy url
                   then [WebhookLine (or_else url JNull)]
                   else [])
          end
      end
  end.

(** The body of the [try] of the handler; [raw] is the text of the
    request, which [c.req.json()] parses. *)
Definition handler_body (mastra : agent_registry) (agentId raw : string) (k : nat)
    : exn + response * list route_line :=
  match JSON_parse raw with
  | inl m => inl (SyntaxError m)
  | inr JNull =>
      inl (TypeError "Cannot destructure property 'jsonrpc' of 'body' as it is null.")
  | inr body =>
      let jsonrpc := prop "jsonrpc" body in
      let requestId := prop "id" body in
      let params := prop "params" body in
      if negb (is_string "2.0" jsonrpc) || negb (truthy requestId)
      then
        inr (mkResponse 400
               (Sent (rpc_error (or_else requestId JNull) (-32600)
                        ("Invalid Request: jsonrpc must be " ++ q "2.0"
                         ++ " and id is required")
                        None)),
             [])
      else
        match mastra agentId with
        | inl e => inl e
        | inr None =>
            inr (mkResponse 404
                   (Sent (rpc_error (or_else requestId JNull) (-32602)
                            ("Agent '" ++ agentId ++ "' not found") None)),
                 [])
        | inr (Some agent) =>
            let given_params := if truthy params then params else None in
            let message := opt_prop "message" given_params in
            let messages := opt_prop "messages" given_params in
            let contextId := opt_prop "contextId" given_params in
            let taskId := opt_prop "taskId" given_params in
            let metadata := opt_prop "metadata" given_params in
            let configuration := opt_prop "configuration" given_params in
            if truthy message
            then
              answer agentId agent (or_else requestId JNull)
                [or_else message JNull]
                (or_opt (opt_prop "contextId" message) contextId)
                (or_opt (opt_prop "taskId" message) taskId)
                (or_opt (opt_prop "metadata" message) metadata)
                configuration k
            else
              match messages with
              | Some (JArr messagesList) =>
                  answer agentId agent (or_else requestId JNull) messagesList
                    contextId taskId metadata configuration k
              | _ =>
                  inr (mkResponse 400
                         (Sent (rpc_error (or_else requestId JNull) (-32602)
                                  "Invalid params: message or messages is required"
                                  None)),
                       [])
              end
        end
  end.

(** The handler of [POST /a2a/agent/:agentId]. *)
Definition a2aAgentRoute (mastra : agent_registry) (agentId raw : string) (k : nat)
    : response * list route_line :=
  match handler_body mastra agentId raw k with
  | inr answered => answered
  | inl error =>
      (mkResponse 500
         (Sent (rpc_error JNull (-32603) "Internal error"
                  (Some (JObj [("details", JStr (exn_message error))])))),
       [RouteErrorLine error])
  end.

End A2ARoute.

(** ** Vocabulary of the route *)

Section RouteVocabulary.
Context {H : Host}.





(** The internal error of the route for the exception [error]. *)
Definition internal_error_of (error : exn) : response * list route_line :=
  (mkResponse 500
     (Sent (rpc_error JNull (-32603) "Internal error"
              (Some (JObj [("details", JStr (exn_message error))])))),
   [RouteErrorLine error]).

End RouteVocabulary.

(** ** Vocabulary of the properties *)

Section Vocabulary.
Context {H : Host}.

(** A run of appends, one [writeToFile] per entry, oldest first. *)
Fixpoint appends (logs : list log_arg) : js unit :=
  match logs with
  | [] => ret tt
  | log :: rest => writeToFile log ;;; appends rest
  end.

(** The entries a run of appends builds when the first reads the clock at [k]. *)
Fixpoint entries_from (k : nat) (logs : list log_arg) : list json :=
  match logs with
  | [] => []
  | log :: rest => messageObj (now_iso k) log :: entries_from (S k) rest
  end.

(** The last [n] items of [l], in their order. *)
Definition last_n {A} (n : nat) (l : list A) : list A :=
  skipn (List.length l - n) l.

(** What the persisted file holds, read as the store: an array of entries. *)
Definition stored (w : world) : option (list json) :=
  match log_file w with
  | File text =>
      match JSON_parse text with
      | inr (JArr items) => Some items
      | _ => None
      end
  | _ => None
  end.

(** The time of a bound that was supplied and is a date; [None] is an
    absent bound. *)
Definition supplied_bound (param : option string) : option Z :=
  match bound_time param with
  | Some (Some t) => Some t
  | _ => None
  end.

(** The filter of the range query, in the words of its specification:
    an entry without a timestamp never passes, and one with a timestamp [t]
    passes when [from] is absent or [t >= from], and [to] is absent or
    [t <= to]. *)
Definition spec_passes (from to : option Z) (entry : json) : bool :=
  match prop "timestamp" entry with
  | None => false
  | Some ts =>
      match Date_getTime ts with
      | None => false
      | Some t =>
          match from with Some f => (f <=? t)%Z | None => true end
          && match to with Some u => (t <=? u)%Z | None => true end
      end
  end.

(** A JSON array of the given entries, as the filtering reader writes it. *)
Definition array_text (entries : list json) : string :=
  "[" ++ String.concat "," (map (fun e => JSON_stringify e 0) entries) ++ "]".

(** An entry of the data model: an object whose timestamp, when it has
    one, is a string. *)
Definition is_entry (v : json) : bool :=
  match v with
  | JObj fields =>
      match assoc "timestamp" fields with
      | Some (JStr _) | None => true
      | Some _ => false
      end
  | _ => false
  end.

(** The buffers the ['data'] listener tries to parse, one per piece read. *)
Fixpoint reads (buf : string) (chunks : list string) : list string :=
  match chunks with
  | [] => []
  | c :: rest => (buf ++ c) :: reads (buf ++ c) rest
  end.

Definition unparsable (text : string) : bool :=
  match JSON_parse text with
  | inl _ => true
  | inr _ => false
  end.

(** No buffer before the last one is a complete JSON text. *)
Definition partial_reads_fail (chunks : list string) : bool :=
  forallb unparsable (removelast (reads "" chunks)).

(** The response of [/api/logs] as a function of the state of the file:
    the handler without its effects on the console and on the log. *)
Definition logs_response (from to : option string) (cuts : list nat)
    (f : fstate) : response :=
  match f with
  | File text =>
      let chunks := chunk_by cuts text in
      if falsy_time (bound_time from) && falsy_time (bound_time to)
      then mkResponse 200 (Streamed (String.concat "" chunks))
      else mkResponse 200
             (Streamed
                (on_end (fold_left (on_data (bound_time from) (bound_time to))
                           chunks (mkStream "" true false ""))))
  | _ => internal_error
  end.

(** Whether the filtering reader writes the entry out. *)
Definition emitted (fromTime toTime : option (option Z)) (log : json) : bool :=
  truthy (prop "timestamp" log)
  && passesFilter fromTime toTime
       match prop "timestamp" log with
       | Some ts => Date_getTime ts
       | None => None
       end.

(** The items as the reader writes them one after the other: a comma
    before each but the very first. *)
Fixpoint tail_text (first : bool) (items : list string) : string :=
  match items with
  | [] => ""
  | x :: rest => (if first then x else "," ++ x) ++ tail_text false rest
  end.

(** A bound that is [null], [undefined], empty, or no date at all. *)
Definition malformed (param : option string) : Prop :=
  param = Some "null" \/ param = Some "undefined" \/ param = Some ""
  \/ exists s, param = Some s /\ Date_getTime (JStr s) = None.

(** What [writeToFile] reports on the console when it fails with [e]. *)
Definition failure_line (e : exn) : channel * list carg :=
  (Err, [CStr "Failed to write to log file:"; message_or_self e]).

(** The new content of the file when an append on the store [old] goes
    through. *)
Definition appended (old : list json) (ts : string) (log : log_arg) : string :=
  JSON_stringify (JArr (last_n 488 old ++ [messageObj ts log])%list) 2.

End Vocabulary.

(** ** Vocabulary of the registry *)

Section RegistryVocabulary.
Context {H : Host}.

(** The calls a user of the registry can make. *)
Inductive command : Type :=
| Create (ep iv : string) (ag : agent) (opt_authToken opt_timeRange : option string)
| Cancel (scheduleId : string)
| CancelByEndpoint (ep : string)
| CancelAll.

Definition apply_command (c : command) (m : ScheduleManager) : ScheduleManager :=
  match c with
  | Create ep iv ag opt_authToken opt_timeRange =>
      snd (createSchedule ep iv ag opt_authToken opt_timeRange m)
  | Cancel scheduleId => snd (cancelSchedule scheduleId m)
  | CancelByEndpoint ep => snd (cancelSchedulesByEndpoint ep m)
  | CancelAll => snd (cancelAllSchedules m)
  end.

(** The registry after the calls [cs], made one after the other. *)
Definition run_commands (cs : list command) (m : ScheduleManager) : ScheduleManager :=
  fold_left (fun m' c => apply_command c m') cs m.

(** A registry of a process that has just started, its clock read [r] times. *)
Definition started (r : nat) : ScheduleManager := mkManager [] 0 r.

(** Every configuration is filed under its own identifier, once. *)
Definition registry_ok (m : ScheduleManager) : Prop :=
  NoDup (map fst (schedules m))
  /\ Forall (fun kv => id (snd kv) = fst kv) (schedules m).

Fixpoint has_hyphen (s : string) : bool :=
  match s with
  | "" => false
  | String c r => (c =? "-")%char || has_hyphen r
  end.

(** Numbers that count print without a hyphen, and differently when they
    differ. *)
Definition counts_print_plainly : Prop :=
  (forall n : nat, has_hyphen (count_text n) = false)
  /\ (forall a b : nat, count_text a = count_text b -> a = b).

(** The identifier [createSchedule] makes of a counter and a time. *)
Definition schedule_id (counter : nat) (now : string) : string :=
  "schedule-" ++ count_text counter ++ "-" ++ now.

(** Every identifier in the registry was made of a counter that is not
    beyond the counter of the registry. *)
Definition ids_counted (m : ScheduleManager) : Prop :=
  Forall (fun kv => exists counter now,
              fst kv = schedule_id counter now /\ counter <= scheduleCounter m)
    (schedules m).

End RegistryVocabulary.

(** ** Vocabulary of the log *)

Section LogVocabulary.
Context {H : Host}.

(** A buffer that does not parse to an array. *)
Definition no_array (text : string) : bool :=
  match JSON_parse text with
  | inr (JArr _) => false
  | _ => true
  end.

(** The world after a [logger] method ran on [w] whose store was [old]: one
    line on its channel with the first reading of the clock, the entry with
    the second reading appended to the last 488 of [old]. *)
Definition logged (ch : channel) (lvl : string) (msg st : option json)
    (old : list json) (w : world) : world :=
  mkWorld
    (File (JSON_stringify
             (JArr (last_n 488 old
                    ++ [JObj (obj_of
                                [("timestamp", Some (JStr (now_iso (S (tick w)))));
                                 ("level", Some (JStr lvl));
                                 ("status", Some (or_else st (JStr "N/A")));
                                 ("message", msg)])])%list)
             2))
    (disk_writable w)
    (console w
     ++ [(ch, [CStr ("[" ++ now_iso (tick w) ++ "] [" ++ lvl ++ "] " ++ ToString msg)])])%list
    (S (S (tick w))).

End LogVocabulary.

(** ** Vocabulary of the tool *)

(** Whether the character occurs in the text. *)
Fixpoint contains (c : ascii) (s : string) : bool :=
  match s with
  | "" => false
  | String d r => (d =? c)%char || contains c r
  end.

(** ** Sample inputs, on the reference host *)

Module Sample.

Definition host : Host := Reference.host.

(** A world whose log file does not exist yet. *)
Definition fresh : world := mkWorld Missing true [] 0.

(** A world whose log file holds text that is not JSON. *)
Definition corrupt : world := mkWorld (File "not json") true [] 0.

(** A world whose log file is there and has no bytes. *)
Definition empty_file : world := mkWorld (File "") true [] 0.

Definition hello : log_arg := mkLog "INFO" (Some (JStr "hello")) None.

(** 490 appends in a row. *)
Definition burst : list log_arg := repeat hello 490.

(** The body of a request to [/api/write-log] that reports an error. *)
Definition error_report : json :=
  JObj [("level", JStr "ERROR"); ("message", JStr "disk full");
        ("status", JStr "500")].

(** What the store holds after [error_report] was written to [fresh]. *)
Definition persisted_report : json :=
  JObj [("timestamp", JStr "2025-11-03T10:30:00.001Z"); ("level", JStr "INFO");
        ("status", JStr "500"); ("message", JStr "disk full")].

(** An entry without a timestamp, and two entries with one. *)
Definition untimed : json :=
  JObj [("level", JStr "INFO"); ("message", JStr "no timestamp")].

Definition early : json :=
  JObj [("timestamp", JStr "2025-11-03T10:29:59.000Z"); ("level", JStr "INFO");
        ("status", JStr "N/A"); ("message", JStr "early")].

Definition late : json :=
  JObj [("timestamp", JStr "2025-11-03T10:30:01.000Z"); ("level", JStr "WARN");
        ("status", JStr "N/A"); ("message", JStr "late")].

(** A world whose log file holds these three entries. *)
Definition stocked : world :=
  mkWorld (File (Reference.stringify (JArr [untimed; early; late]) 2)) true [] 0.

(** A schedule manager that has just started. *)
Definition manager0 : ScheduleManager := mkManager [] 0 0.

(** An interpreter that cannot be reached, and one that answers. *)
Definition offline : agent := fun _ => inl (Error "fetch failed").

Definition every_30_minutes : agent := fun _ => inr (Some " `*/30 * * * *` ").

(** An interpreter whose answer is wrapped in no-break spaces (U+00A0). *)
Definition nbsp : string := String (ascii_of_nat 194) (String (ascii_of_nat 160) "").

Definition every_morning : agent :=
  fun _ => inr (Some (nbsp ++ "0 9 * * *" ++ nbsp)).

(** A log source that refuses, one that breaks, and both as networks. *)
Definition forbidden : fetch_response := mkFetched 403 "Forbidden" None.

Definition broken : fetch_response := mkFetched 500 "Internal Server Error" None.

Definition answers (r : fetch_response) : network := fun _ => inr r.

(** Two schedules created one after the other, for two endpoints. *)
Definition two_creates : list command :=
  [Create "https://x/logs" "every 30 minutes" every_30_minutes None None;
   Create "https://z/logs" "every 30 minutes" every_30_minutes (Some "token") None].

(** An answer of the model with the range in a fence, and the model. *)
Definition range_inside : string :=
  q "from" ++ ":" ++ q "2025-11-03T09:30:00.000Z" ++ ","
  ++ q "to" ++ ":" ++ q "2025-11-03T10:30:00.000Z".

Definition fenced_range : string :=
  "```json" ++ nl ++ "{" ++ range_inside ++ "}" ++ nl ++ "```".

Definition verdict_inside : string :=
  q "status" ++ ":" ++ q "Sick" ++ "," ++ q "note" ++ ":{}".

Definition fenced_verdict : string :=
  "Here you go: {" ++ verdict_inside ++ "} (done)".

Definition model : analyser :=
  fun prompt =>
    match prompt with
    | TimeRangePrompt _ _ => inr (Some fenced_range)
    | AnalysisPrompt _ _ _ _ _ _ => inr (Some fenced_verdict)
    end.

(** A log source that answers with an empty array, in two pieces. *)
Definition no_logs : fetch_response := mkFetched 200 "OK" (Some ["["; "]"]).

(** A world whose log file has a [null] between two entries, and one whose
    log file holds 600 entries. *)
Definition holed : world :=
  mkWorld (File (Reference.stringify (JArr [early; JNull; late]) 2)) true [] 0.

Definition crowded : world :=
  mkWorld (File (Reference.stringify (JArr (repeat early 600)) 2)) true [] 0.

(** The agents of the route: one, which finds the logs quiet; the
    identifiers the route draws; and three requests: one whose message has
    no parts, one with a list of messages and a task, and one with a message
    and a list. *)
Definition quiet : a2a_agent :=
  fun _ => inr (mkGenerated (Some "all quiet") None).

Definition agents : agent_registry :=
  fun agentId =>
    if agentId =? "logAnalyserAgent" then inr (Some quiet) else inr None.

Definition uuid (n : nat) : string := "uuid-" ++ Reference.print_nat n.

Definition question : json :=
  JObj [("role", JStr "user");
        ("parts", JArr [JObj [("kind", JStr "text"); ("text", JStr "any errors?")]])].

Definition bare_request : json :=
  JObj [("jsonrpc", JStr "2.0"); ("id", JStr "r1");
        ("params", JObj [("message", JObj [("role", JStr "user")])])].


Definition doubled_request (others : list json) : json :=
  JObj [("jsonrpc", JStr "2.0"); ("id", JStr "r3");
        ("params", JObj [("message", question); ("messages", JArr others)])].

End Sample.

(** * Properties *)

(** ** Strings and lists *)

Lemma append_assoc (a b c : string) : (a ++ b) ++ c = a ++ (b ++ c).
Proof. induction a as [|x a IH]; simpl; [reflexivity | now rewrite IH]. Qed.

Lemma append_nil_r (a : string) : a ++ "" = a.
Proof. induction a as [|x a IH]; simpl; [reflexivity | now rewrite IH]. Qed.

Lemma rev_firstn_rev {A} (n : nat) (l : list A) :
  List.rev (firstn n (List.rev l)) = last_n n l.
Proof. unfold last_n. now rewrite firstn_rev, rev_involutive. Qed.

Lemma last_n_length {A} (n : nat) (l : list A) :
  List.length (last_n n l) = Nat.min n (List.length l).
Proof. unfold last_n. rewrite length_skipn. lia. Qed.

Lemma last_n_all {A} (n : nat) (l : list A) :
  List.length l <= n -> last_n n l = l.
Proof.
  intros Hle. unfold last_n.
  replace (List.length l - n) with 0 by lia. reflexivity.
Qed.

Lemma last_n_snoc {A} (n : nat) (l : list A) (x : A) :
  (last_n n l ++ [x])%list = last_n (S n) (l ++ [x])%list.
Proof.
  unfold last_n. rewrite length_app. simpl.
  replace (List.length l + 1 - S n) with (List.length l - n) by lia.
  rewrite skipn_app.
  replace (List.length l - n - List.length l) with 0 by lia.
  reflexivity.
Qed.

Lemma last_n_last_n {A} (n m : nat) (l : list A) :
  n <= m -> last_n n (last_n m l) = last_n n l.
Proof.
  intros Hle. unfold last_n at 1 3.
  rewrite last_n_length. unfold last_n. rewrite skipn_skipn.
  f_equal. lia.
Qed.

Lemma last_n_app_last_n {A} (n : nat) (a b : list A) :
  last_n n (last_n n a ++ b)%list = last_n n (a ++ b)%list.
Proof.
  destruct (Nat.le_gt_cases (List.length a) n) as [Hle | Hgt].
  - now rewrite (last_n_all n a Hle).
  - unfold last_n. rewrite !length_app, length_skipn.
    replace (List.length a - (List.length a - n) + List.length b - n)
      with (List.length b) by lia.
    replace (List.length a + List.length b - n)
      with (List.length b + (List.length a - n)) by lia.
    rewrite <- skipn_skipn. f_equal.
    rewrite skipn_app.
    replace (List.length a - n - List.length a) with 0 by lia.
    reflexivity.
Qed.

(** ** The append: [writeToFile] *)

Ltac js_run :=
  cbv beta iota zeta delta
    [writeToFile writeToFile_body getTimestamp existsSync readFileSync parse
     as_array writeFileSync failure_line ret throw bind try_catch
     next_tick set_file add_console console_write] in *;
  cbn [log_file disk_writable console tick fst snd] in *.

Ltac js_with E := rewrite ?E; js_run; rewrite ?E; js_run.

Section LoggerFacts.
Context {H : Host}.

Lemma writeToFile_missing (log : log_arg) (w : world) :
  log_file w = Missing -> disk_writable w = true ->
  writeToFile log w
  = (Returned tt, set_file (File (appended [] (now_iso (tick w)) log)) (next_tick w)).
Proof.
  intros Hf Hd. js_run. js_with Hf. js_with Hd. reflexivity.
Qed.

Lemma writeToFile_array (log : log_arg) (w : world) (text : string) (old : list json) :
  log_file w = File text -> JSON_parse text = inr (JArr old) ->
  disk_writable w = true ->
  writeToFile log w
  = (Returned tt, set_file (File (appended old (now_iso (tick w)) log)) (next_tick w)).
Proof.
  intros Hf Hp Hd. js_run. js_with Hf. js_with Hp. js_with Hd.
  unfold appended. now rewrite rev_firstn_rev.
Qed.

Lemma writeToFile_parse_failure (log : log_arg) (w : world) (text m : string) :
  log_file w = File text -> JSON_parse text = inl m ->
  writeToFile log w
  = (Returned tt, add_console (failure_line (SyntaxError m)) (next_tick w)).
Proof. intros Hf Hp. js_run. js_with Hf. js_with Hp. reflexivity. Qed.

Lemma writeToFile_read_failure (log : log_arg) (w : world) :
  log_file w = Unreadable ->
  writeToFile log w
  = (Returned tt, add_console (failure_line EACCES) (next_tick w)).
Proof. intros Hf. js_run. js_with Hf. reflexivity. Qed.

Lemma writeToFile_write_failure (log : log_arg) (w : world) :
  log_file w = Missing -> disk_writable w = false ->
  writeToFile log w
  = (Returned tt, add_console (failure_line EACCES) (next_tick w)).
Proof. intros Hf Hd. js_run. js_with Hf. js_with Hd. reflexivity. Qed.

(** Whatever the body does, it either returns having rewritten the file
    with the new entry last, or throws having touched neither the file nor
    the console. *)
Lemma writeToFile_body_cases (log : log_arg) (w : world) :
  (exists old,
      writeToFile_body log w
      = (Returned tt,
         set_file (File (appended old (now_iso (tick w)) log)) (next_tick w)))
  \/ (exists e, writeToFile_body log w = (Threw e, next_tick w)).
Proof.
  destruct (log_file w) as [| |text] eqn:Hf.
  - destruct (disk_writable w) eqn:Hd; [left; exists [] | right; eexists];
      js_run; js_with Hf; js_with Hd; reflexivity.
  - right; eexists; js_run; js_with Hf; reflexivity.
  - destruct (JSON_parse text) as [m|v] eqn:Hp.
    { right; eexists; js_run; js_with Hf; js_with Hp; reflexivity. }
    destruct v;
      try (right; eexists; js_run; js_with Hf; js_with Hp; reflexivity).
    destruct (disk_writable w) eqn:Hd.
    + left. exists items. js_run. js_with Hf. js_with Hp. js_with Hd.
      unfold appended. now rewrite rev_firstn_rev.
    + right; eexists; js_run; js_with Hf; js_with Hp; js_with Hd; reflexivity.
Qed.

(** In every world [writeToFile] returns, and the file is as it was or
    holds the new entry last. *)
Lemma writeToFile_effect (log : log_arg) (w : world) :
  exists w',
    writeToFile log w = (Returned tt, w')
    /\ (log_file w' = log_file w
        \/ exists old, log_file w' = File (appended old (now_iso (tick w)) log)).
Proof.
  destruct (writeToFile_body_cases log w) as [[old Hb] | [e Hb]];
    eexists; (split; [unfold writeToFile, try_catch; rewrite Hb; reflexivity|]).
  - right. exists old. reflexivity.
  - left. reflexivity.
Qed.

End LoggerFacts.

Section AppendFacts.
Context {H : Host}.

(** C8: an append never throws to its caller. Whatever the entry and the
    state of the file system, [writeToFile] returns; and when its body threw
    (the file could not be read, its text could not be parsed or was not an
    array, or the file could not be written), the file is left as it was and
    the error went to [console.error] only. *)
Theorem writeToFile_never_throws (log : log_arg) (w : world) :
  exists w',
    writeToFile log w = (Returned tt, w') /\
    forall e w1, writeToFile_body log w = (Threw e, w1) ->
      log_file w' = log_file w /\
      disk_writable w' = disk_writable w /\
      console w' = (console w ++ [failure_line e])%list.
Proof.
  destruct (writeToFile_body_cases log w) as [[old Hb] | [e0 Hb]].
  - eexists. split.
    + unfold writeToFile, try_catch. rewrite Hb. reflexivity.
    + intros e w1 He. rewrite Hb in He. discriminate.
  - eexists. split.
    + unfold writeToFile, try_catch. rewrite Hb. reflexivity.
    + intros e w1 He. rewrite Hb in He. injection He as <- <-.
      repeat split.
Qed.

(** C4, as the code has it: when the file holds text that [JSON.parse]
    rejects, the append does not crash; the error is reported on
    [console.error], the new entry is dropped and the file keeps its text. *)
Theorem writeToFile_keeps_corrupt_file (log : log_arg) (w : world) (text m : string) :
  log_file w = File text ->
  JSON_parse text = inl m ->
  exists w',
    writeToFile log w = (Returned tt, w') /\
    log_file w' = File text /\
    console w' = (console w ++ [failure_line (SyntaxError m)])%list.
Proof.
  intros Hf Hp. eexists. split.
  - apply (writeToFile_parse_failure log w text m Hf Hp).
  - split; [exact Hf | reflexivity].
Qed.

End AppendFacts.

Lemma writeToFile_never_throws_witness :
  exists w',
    @writeToFile Sample.host Sample.hello Sample.corrupt = (Returned tt, w') /\
    log_file w' = File "not json".
Proof.
  destruct (@writeToFile_never_throws Sample.host Sample.hello Sample.corrupt)
    as (w' & Hw & Hkeep).
  exists w'. split; [exact Hw|].
  destruct (Hkeep (SyntaxError "Unexpected token in JSON")
              (next_tick Sample.corrupt) eq_refl) as (Hf & _).
  exact Hf.
Defined.

Lemma writeToFile_keeps_corrupt_file_witness :
  exists w',
    @writeToFile Sample.host Sample.hello Sample.corrupt = (Returned tt, w') /\
    log_file w' = File "not json" /\
    console w'
    = [failure_line (SyntaxError "Unexpected token in JSON")].
Proof.
  apply (@writeToFile_keeps_corrupt_file Sample.host Sample.hello Sample.corrupt
           "not json" "Unexpected token in JSON"); reflexivity.
Defined.

(** C4, as the claim words it, fails: the file holds text that is not
    JSON, the append returns, and afterwards the file still holds that text;
    the store is not the one new entry. *)
Lemma corrupt_file_is_not_reset :
  log_file Sample.corrupt = File "not json"
  /\ @JSON_parse Sample.host "not json" = inl "Unexpected token in JSON"
  /\ log_file (snd (@writeToFile Sample.host Sample.hello Sample.corrupt))
     = File "not json"
  /\ forall ts,
       @stored Sample.host (snd (@writeToFile Sample.host Sample.hello Sample.corrupt))
       <> Some [messageObj ts Sample.hello].
Proof.
  repeat split; try reflexivity.
  intros ts Hs. vm_compute in Hs. discriminate.
Qed.

(** ** Retention *)

Section Retention.
Context {H : Host}.

(** What [JSON.stringify] wrote, [JSON.parse] reads back. *)
Hypothesis parse_stringify :
  forall items : list json,
    JSON_parse (JSON_stringify (JArr items) 2) = inr (JArr items).

Lemma stored_after_append (log : log_arg) (w : world) (old : list json) :
  disk_writable w = true ->
  stored w = Some old \/ (log_file w = Missing /\ old = []) ->
  let w' := snd (writeToFile log w) in
  stored w' = Some (last_n 489 (old ++ [messageObj (now_iso (tick w)) log]))%list
  /\ disk_writable w' = true /\ tick w' = S (tick w).
Proof.
  intros Hd Hs w'. subst w'.
  assert (Hw : writeToFile log w
               = (Returned tt,
                  set_file (File (appended old (now_iso (tick w)) log)) (next_tick w))).
  { destruct Hs as [Hs | [Hf ->]].
    - unfold stored in Hs.
      destruct (log_file w) as [| |text] eqn:Hf; try discriminate.
      destruct (JSON_parse text) as [m|v] eqn:Hp; try discriminate.
      destruct v; try discriminate. injection Hs as ->.
      now apply (writeToFile_array log w text).
    - now apply writeToFile_missing. }
  rewrite Hw. cbn [snd]. unfold stored, set_file, next_tick, appended.
  cbn [log_file disk_writable tick].
  rewrite parse_stringify, last_n_snoc. auto.
Qed.

(** After any run of appends on a store of at most 489 entries, the store
    holds the last 489 of the old entries followed by the new ones. *)
Lemma stored_after_appends (logs : list log_arg) :
  forall (w : world) (old : list json),
    disk_writable w = true ->
    stored w = Some old ->
    List.length old <= 489 ->
    let w' := snd (appends logs w) in
    stored w' = Some (last_n 489 (old ++ entries_from (tick w) logs))%list
    /\ disk_writable w' = true.
Proof.
  induction logs as [|log rest IH]; intros w old Hd Hs Hlen; cbn [appends entries_from].
  - cbn. rewrite app_nil_r, last_n_all by exact Hlen. auto.
  - destruct (stored_after_append log w old Hd (or_introl Hs)) as (Hs1 & Hd1 & Ht1).
    destruct (writeToFile_effect log w) as (w1 & Hw1 & _).
    rewrite Hw1 in Hs1, Hd1, Ht1. cbn [snd] in Hs1, Hd1, Ht1.
    unfold bind. rewrite Hw1.
    destruct (IH w1 _ Hd1 Hs1) as (Hs2 & Hd2).
    { rewrite last_n_length. lia. }
    cbv zeta in Hs2, Hd2. rewrite Hs2, Hd2. split; [|reflexivity].
    rewrite Ht1, last_n_app_last_n, <- app_assoc. reflexivity.
Qed.

(** Retention, as the code has it: after [N >= 1] appends on a store that
    was absent or empty, the store holds the last [min N 489] entries
    appended, oldest first and newest last. *)
Lemma retention (logs : list log_arg) (w : world) :
  disk_writable w = true ->
  log_file w = Missing \/ stored w = Some [] ->
  logs <> [] ->
  stored (snd (appends logs w))
  = Some (last_n 489 (entries_from (tick w) logs)).
Proof.
  intros Hd Hs Hne. destruct logs as [|log rest]; [congruence|].
  cbn [appends entries_from].
  assert (Hs' : stored w = Some [] \/ (log_file w = Missing /\ @nil json = [])).
  { destruct Hs; auto. }
  destruct (stored_after_append log w [] Hd Hs') as (Hs1 & Hd1 & Ht1).
  destruct (writeToFile_effect log w) as (w1 & Hw1 & _).
  rewrite Hw1 in Hs1, Hd1, Ht1. cbn [snd] in Hs1, Hd1, Ht1.
  unfold bind. rewrite Hw1.
  destruct (stored_after_appends rest w1 _ Hd1 Hs1) as (Hs2 & _).
  { rewrite last_n_length. lia. }
  cbv zeta in Hs2. rewrite Hs2, Ht1, last_n_app_last_n. reflexivity.
Qed.

Lemma entries_from_length (k : nat) (logs : list log_arg) :
  List.length (entries_from k logs) = List.length logs.
Proof.
  revert k; induction logs as [|log rest IH]; intros k; cbn; [reflexivity|].
  now rewrite IH.
Qed.

Lemma retention_count (logs : list log_arg) (w : world) :
  disk_writable w = true ->
  log_file w = Missing \/ stored w = Some [] ->
  logs <> [] ->
  exists kept,
    stored (snd (appends logs w)) = Some kept
    /\ List.length kept = Nat.min (List.length logs) 489.
Proof.
  intros Hd Hs Hne. eexists. split; [now apply retention|].
  rewrite last_n_length, entries_from_length. lia.
Qed.

End Retention.

(** ** The reference host reads back what it prints *)

Module ReferenceFacts.
Import Reference.

Lemma json_nested_ind (P : json -> Prop) :
  P JNull ->
  (forall b, P (JBool b)) ->
  (forall n, P (JNum n)) ->
  (forall s, P (JStr s)) ->
  (forall items, Forall P items -> P (JArr items)) ->
  (forall fields, Forall (fun kv => P (snd kv)) fields -> P (JObj fields)) ->
  forall v, P v.
Proof.
  intros HNull HBool HNum HStr HArr HObj.
  fix IH 1. intros [ | b | n | s | items | fields].
  - exact HNull.
  - apply HBool.
  - apply HNum.
  - apply HStr.
  - apply HArr. induction items as [|x items IHitems]; constructor.
    + apply IH.
    + exact IHitems.
  - apply HObj. induction fields as [|[k x] fields IHfields]; constructor.
    + apply IH.
    + exact IHfields.
Qed.

(** *** Tokens to value *)

Lemma tokens_not_nil (v : json) : tokens v <> [].
Proof. destruct v as [ | [|] | | | [|x xs] | [|[k x] xs]]; discriminate. Qed.

Lemma tokens_head (v : json) :
  exists t r, tokens v = t :: r /\ t <> TRBrack.
Proof.
  destruct v as [ | [|] | | | [|x xs] | [|[k x] xs]]; cbn [tokens];
    eexists; eexists; (split; [reflexivity | discriminate]).
Qed.

Lemma parse_value_tokens (v : json) :
  forall fuel rest,
    List.length (tokens v) <= fuel ->
    parse_value fuel (tokens v ++ rest)%list = Some (v, rest).
Proof.
  induction v as [ | b | n | s | items IHitems | fields IHfields]
    using json_nested_ind; intros fuel rest Hfuel.
  - destruct fuel; [cbn in Hfuel; lia | reflexivity].
  - destruct fuel; [destruct b; cbn in Hfuel; lia | destruct b; reflexivity].
  - destruct fuel; [cbn in Hfuel; lia | reflexivity].
  - destruct fuel; [cbn in Hfuel; lia | reflexivity].
  - destruct items as [|x xs].
    { destruct fuel; [cbn in Hfuel; lia | reflexivity]. }
    cbn [tokens] in *. inversion IHitems as [|? ? Hx Hxs]; subst.
    destruct fuel as [|f]; [cbn in Hfuel; lia|].
    cbn [List.length] in Hfuel. rewrite length_app in Hfuel.
    assert (Htail : forall rest', 
               List.length (items_tokens tokens xs) <= f ->
               parse_items f (items_tokens tokens xs ++ rest')%list = Some (xs, rest')).
    { clear Hx Hfuel IHitems. revert f.
      induction xs as [|y ys IHys]; intros f rest' Hlen.
      - destruct f; [cbn in Hlen; lia | reflexivity].
      - inversion Hxs as [|? ? Hy Hys]; subst.
        destruct f as [|f']; [cbn in Hlen; lia|].
        cbn [items_tokens List.length] in Hlen. rewrite length_app in Hlen.
        cbn [items_tokens app parse_items]. rewrite <- app_assoc.
        rewrite Hy by lia.
        fold (items_tokens tokens ys). rewrite (IHys Hys) by lia. reflexivity. }
    destruct (tokens_head x) as (t & r & Et & Ht).
    pose proof (Hx f (items_tokens tokens xs ++ rest)%list) as Hx'.
    cbn [app]. rewrite <- app_assoc.
    rewrite Et in *. cbn [app parse_value] in *.
    destruct t; try congruence; rewrite Hx' by lia; rewrite Htail by lia;
      reflexivity.
  - destruct fields as [|[k x] xs].
    { destruct fuel; [cbn in Hfuel; lia | reflexivity]. }
    cbn [tokens] in *. inversion IHfields as [|? ? Hx Hxs]; subst. cbn [snd] in Hx.
    destruct fuel as [|f]; [cbn in Hfuel; lia|].
    cbn [List.length] in Hfuel. rewrite length_app in Hfuel.
    assert (Htail : forall rest',
               List.length (members_tokens tokens xs) <= f ->
               parse_members f (members_tokens tokens xs ++ rest')%list = Some (xs, rest')).
    { clear Hx Hfuel IHfields. revert f.
      induction xs as [|[k' y] ys IHys]; intros f rest' Hlen.
      - destruct f; [cbn in Hlen; lia | reflexivity].
      - inversion Hxs as [|? ? Hy Hys]; subst. cbn [snd] in Hy.
        destruct f as [|f']; [cbn in Hlen; lia|].
        cbn [members_tokens List.length] in Hlen. rewrite length_app in Hlen.
        cbn [members_tokens app parse_members]. rewrite <- app_assoc.
        rewrite Hy by lia.
        fold (members_tokens tokens ys). rewrite (IHys Hys) by lia. reflexivity. }
    cbn [app parse_value]. rewrite <- app_assoc. rewrite Hx by lia.
    rewrite Htail by lia. reflexivity.
Qed.


(** *** Text to tokens *)

Lemma lex_spaces (n : nat) (toks : list token) (rest : string) :
  lex_go (Idle, toks) (spaces n ++ rest) = lex_go (Idle, toks) rest.
Proof. induction n as [|n IH]; [reflexivity | exact IH]. Qed.

Lemma lex_sep (indent depth : nat) (toks : list token) (rest : string) :
  lex_go (Idle, toks) (sep indent depth ++ rest) = lex_go (Idle, toks) rest.
Proof.
  destruct indent as [|i]; [reflexivity|].
  unfold sep. cbn [append]. 
  change (lex_go (Idle, toks) (String lf (spaces (S i * depth) ++ rest)))
    with (lex_go (Idle, toks) (spaces (S i * depth) ++ rest)).
  apply lex_spaces.
Qed.

Lemma lex_colon (indent : nat) (toks : list token) (rest : string) :
  lex_go (Idle, toks) (colon indent ++ rest) = lex_go (Idle, TColon :: toks) rest.
Proof. destruct indent; reflexivity. Qed.

Lemma lex_in_str (s : string) :
  forall acc toks rest,
    lex_go (InStr acc, toks) ((escape s ++ str1 dq) ++ rest)
    = lex_go (Idle, TStr (acc ++ s) :: toks) rest.
Proof.
  induction s as [|c r IH]; intros acc toks rest.
  - cbn. now rewrite append_nil_r.
  - cbn [escape].
    replace (acc ++ String c r) with ((acc ++ str1 c) ++ r)
      by (rewrite append_assoc; reflexivity).
    destruct (c =? dq)%char eqn:Edq.
    { apply Ascii.eqb_eq in Edq. subst c. exact (IH _ toks rest). }
    destruct (c =? bs)%char eqn:Ebs.
    { apply Ascii.eqb_eq in Ebs. subst c. exact (IH _ toks rest). }
    destruct (c =? lf)%char eqn:Elf.
    { apply Ascii.eqb_eq in Elf. subst c. exact (IH _ toks rest). }
    destruct (c =? tab)%char eqn:Etab.
    { apply Ascii.eqb_eq in Etab. subst c. exact (IH _ toks rest). }
    destruct (c =? cr)%char eqn:Ecr.
    { apply Ascii.eqb_eq in Ecr. subst c. exact (IH _ toks rest). }
    cbn [append lex_go step]. rewrite Edq, Ebs. apply IH.
Qed.

Lemma lex_quote (s : string) (toks : list token) (rest : string) :
  lex_go (Idle, toks) (quote s ++ rest) = lex_go (Idle, TStr s :: toks) rest.
Proof. exact (lex_in_str s "" toks rest). Qed.

Lemma lex_digits (d : Decimal.uint) :
  forall neg acc toks rest,
    lex_go (InNum neg acc, toks) (DecimalString.NilEmpty.string_of_uint d ++ rest)
    = lex_go (InNum neg (Decimal.revapp d acc), toks) rest.
Proof.
  induction d; intros neg acc toks rest; [reflexivity | ..];
    cbn [DecimalString.NilEmpty.string_of_uint append Decimal.revapp];
    rewrite <- IHd; reflexivity.
Qed.

Lemma lex_number_end (neg : bool) (acc : Decimal.uint) (n : Z)
    (toks : list token) (rest : string) :
  delimited rest -> number neg acc = Some n ->
  lex_go (InNum neg acc, toks) rest = lex_go (Idle, TNum n :: toks) rest.
Proof.
  intros Hd Hn. destruct rest as [|c r]; cbn [lex_go step finish].
  - now rewrite Hn.
  - cbn in Hd. now rewrite Hd, Hn.
Qed.

Lemma number_rev (neg : bool) (d : Decimal.uint) :
  d <> Decimal.Nil ->
  number neg (Decimal.rev d)
  = Some (Z.of_int (if neg then Decimal.Neg d else Decimal.Pos d)).
Proof.
  intros Hd. unfold number.
  destruct (Decimal.rev d) eqn:E;
    [apply DecimalFacts.rev_nil_inv in E; contradiction | ..];
    rewrite <- E, DecimalFacts.rev_rev; reflexivity.
Qed.

Lemma lex_uint (d : Decimal.uint) (toks : list token) (rest : string) :
  d <> Decimal.Nil ->
  lex_go (Idle, toks) (DecimalString.NilEmpty.string_of_uint d ++ rest)
  = lex_go (InNum false Decimal.Nil, toks)
      (DecimalString.NilEmpty.string_of_uint d ++ rest).
Proof. destruct d; [congruence | reflexivity ..]. Qed.

Lemma lex_print_Z (n : Z) (toks : list token) (rest : string) :
  delimited rest ->
  lex_go (Idle, toks) (print_Z n ++ rest) = lex_go (Idle, TNum n :: toks) rest.
Proof.
  intros Hd. unfold print_Z.
  assert (Hnum : forall neg d, d <> Decimal.Nil ->
            lex_go (InNum neg Decimal.Nil, toks)
              (DecimalString.NilEmpty.string_of_uint d ++ rest)
            = lex_go (Idle,
                      TNum (Z.of_int (if neg then Decimal.Neg d else Decimal.Pos d))
                      :: toks) rest).
  { intros neg d Hnil. rewrite lex_digits.
    apply lex_number_end; [exact Hd|]. now apply number_rev. }
  destruct n as [|p|p]; cbn [Z.to_int DecimalString.NilEmpty.string_of_int].
  - rewrite lex_uint by discriminate. rewrite Hnum by discriminate. reflexivity.
  - rewrite lex_uint by apply DecimalPos.Unsigned.to_uint_nonnil.
    rewrite Hnum by apply DecimalPos.Unsigned.to_uint_nonnil.
    change (Decimal.Pos (Pos.to_uint p)) with (Z.to_int (Z.pos p)).
    now rewrite DecimalZ.of_to.
  - change (lex_go (Idle, toks)
              (String "-" (DecimalString.NilEmpty.string_of_uint (Pos.to_uint p)) ++ rest))
      with (lex_go (InNum true Decimal.Nil, toks)
              (DecimalString.NilEmpty.string_of_uint (Pos.to_uint p) ++ rest)).
    rewrite Hnum by apply DecimalPos.Unsigned.to_uint_nonnil.
    change (Decimal.Neg (Pos.to_uint p)) with (Z.to_int (Z.neg p)).
    now rewrite DecimalZ.of_to.
Qed.


Lemma delimited_items (pr : json -> string) (indent depth : nat)
    (xs : list json) (rest : string) :
  delimited (print_items pr indent depth xs ++ rest).
Proof. destruct xs; destruct indent; reflexivity. Qed.

Lemma delimited_members (pr : json -> string) (indent depth : nat)
    (xs : list (string * json)) (rest : string) :
  delimited (print_members pr indent depth xs ++ rest).
Proof. destruct xs as [|[k y] xs]; destruct indent; reflexivity. Qed.

Lemma lex_print (v : json) :
  forall indent depth toks rest,
    delimited rest ->
    lex_go (Idle, toks) (print indent depth v ++ rest)
    = lex_go (Idle, List.rev (tokens v) ++ toks)%list rest.
Proof.
  induction v as [ | b | n | s | items IHitems | fields IHfields]
    using json_nested_ind; intros indent depth toks rest Hd.
  - reflexivity.
  - destruct b; reflexivity.
  - now apply lex_print_Z.
  - apply lex_quote.
  - destruct items as [|x xs]; [reflexivity|].
    inversion IHitems as [|? ? Hx Hxs]; subst.
    cbn [print tokens].
    change (lex_go (Idle, toks)
              (("[" ++ sep indent (S depth) ++ print indent (S depth) x
                ++ print_items (print indent (S depth)) indent depth xs) ++ rest))
      with (lex_go (Idle, TLBrack :: toks)
              ((sep indent (S depth) ++ print indent (S depth) x
                ++ print_items (print indent (S depth)) indent depth xs) ++ rest)).
    rewrite append_assoc, lex_sep, append_assoc.
    rewrite Hx by apply delimited_items.
    cbn [List.rev]. rewrite rev_app_distr, <- !app_assoc. cbn [app].
    generalize (List.rev (tokens x) ++ TLBrack :: toks)%list as acc.
    clear Hx IHitems.
    induction xs as [|y ys IHys]; intros acc.
    + cbn [print_items items_tokens List.rev app].
      rewrite append_assoc, lex_sep. reflexivity.
    + inversion Hxs as [|? ? Hy Hys]; subst.
      cbn [print_items items_tokens].
      fold (print_items (print indent (S depth)) indent depth ys).
      fold (items_tokens tokens ys).
      change (lex_go (Idle, acc)
                (("," ++ sep indent (S depth) ++ print indent (S depth) y
                  ++ print_items (print indent (S depth)) indent depth ys) ++ rest))
        with (lex_go (Idle, TComma :: acc)
                ((sep indent (S depth) ++ print indent (S depth) y
                  ++ print_items (print indent (S depth)) indent depth ys) ++ rest)).
      rewrite append_assoc, lex_sep, append_assoc.
      rewrite Hy by apply delimited_items.
      rewrite (IHys Hys).
      cbn [List.rev]. rewrite rev_app_distr, <- !app_assoc. reflexivity.
  - destruct fields as [|[k x] xs]; [reflexivity|].
    inversion IHfields as [|? ? Hx Hxs]; subst. cbn [snd] in Hx.
    cbn [print tokens].
    change (lex_go (Idle, toks)
              (("{" ++ sep indent (S depth) ++ quote k ++ colon indent
                ++ print indent (S depth) x
                ++ print_members (print indent (S depth)) indent depth xs) ++ rest))
      with (lex_go (Idle, TLBrace :: toks)
              ((sep indent (S depth) ++ quote k ++ colon indent
                ++ print indent (S depth) x
                ++ print_members (print indent (S depth)) indent depth xs) ++ rest)).
    rewrite append_assoc, lex_sep, append_assoc, lex_quote, append_assoc, lex_colon,
      append_assoc.
    rewrite Hx by apply delimited_members.
    cbn [List.rev]. rewrite ?rev_app_distr, <- ?app_assoc. cbn [List.rev app].
    rewrite <- ?app_assoc. cbn [app].
    generalize (List.rev (tokens x) ++ TColon :: TStr k :: TLBrace :: toks)%list as acc.
    clear Hx IHfields.
    induction xs as [|[k' y] ys IHys]; intros acc.
    + cbn [print_members members_tokens List.rev app].
      rewrite append_assoc, lex_sep. reflexivity.
    + inversion Hxs as [|? ? Hy Hys]; subst. cbn [snd] in Hy.
      cbn [print_members members_tokens].
      fold (print_members (print indent (S depth)) indent depth ys).
      fold (members_tokens tokens ys).
      change (lex_go (Idle, acc)
                (("," ++ sep indent (S depth) ++ quote k' ++ colon indent
                  ++ print indent (S depth) y
                  ++ print_members (print indent (S depth)) indent depth ys) ++ rest))
        with (lex_go (Idle, TComma :: acc)
                ((sep indent (S depth) ++ quote k' ++ colon indent
                  ++ print indent (S depth) y
                  ++ print_members (print indent (S depth)) indent depth ys) ++ rest)).
      rewrite append_assoc, lex_sep, append_assoc, lex_quote, append_assoc,
        lex_colon, append_assoc.
      rewrite Hy by apply delimited_members.
      rewrite (IHys Hys).
      cbn [List.rev]. rewrite ?rev_app_distr, <- ?app_assoc. cbn [List.rev app].
      rewrite <- ?app_assoc. reflexivity.
Qed.

(** What the reference host prints, in either layout, it parses back. *)
Lemma parse_text_stringify (v : json) (indent : nat) :
  parse_text (stringify v indent) = inr v.
Proof.
  unfold parse_text, stringify, lex.
  rewrite <- (append_nil_r (print indent 0 v)).
  rewrite lex_print by exact I.
  cbn [lex_go finish]. rewrite app_nil_r, rev_involutive.
  rewrite <- (app_nil_r (tokens v)) at 2.
  rewrite parse_value_tokens by reflexivity. reflexivity.
Qed.

End ReferenceFacts.

(** C1, evaluated where it fails: 490 appends on a store that did not exist
    leave 489 entries, the last 489 appended, and not the [min 490 500 = 490]
    the retention of 500 entries promises; [writeToFile] keeps 488 old
    entries where its comment says 500. *)
Theorem retention_keeps_489_of_490 :
  let kept := last_n 489 (@entries_from Sample.host 0 Sample.burst) in
  @stored Sample.host (snd (@appends Sample.host Sample.burst Sample.fresh))
  = Some kept
  /\ List.length kept = 489
  /\ Nat.min (List.length Sample.burst) 500 = 490.
Proof.
  cbv zeta. split; [|split].
  - apply (@retention Sample.host).
    + intros items. apply ReferenceFacts.parse_text_stringify.
    + reflexivity.
    + left; reflexivity.
    + discriminate.
  - rewrite last_n_length, entries_from_length. reflexivity.
  - reflexivity.
Qed.

(** ** The write endpoint *)

Section WriteLogFacts.
Context {H : Host}.

Lemma logger_with_run (ch : channel) (lvl : string) (msg st : option json) (w : world) :
  logger_with ch lvl msg st w
  = writeToFile (mkLog lvl msg st)
      (add_console
         (ch, [CStr ("[" ++ now_iso (tick w) ++ "] [" ++ lvl ++ "] " ++ ToString msg)])
         (next_tick w)).
Proof. reflexivity. Qed.

Lemma logger_with_effect (ch : channel) (lvl : string) (msg st : option json) (w : world) :
  exists w',
    logger_with ch lvl msg st w = (Returned tt, w')
    /\ (log_file w' = log_file w
        \/ exists old,
            log_file w' = File (appended old (now_iso (S (tick w))) (mkLog lvl msg st))).
Proof.
  rewrite logger_with_run.
  destruct (writeToFile_effect (mkLog lvl msg st)
              (add_console
                 (ch, [CStr ("[" ++ now_iso (tick w) ++ "] [" ++ lvl ++ "] "
                             ++ ToString msg)])
                 (next_tick w))) as (w' & Hw & Hfile).
  exists w'. split; [exact Hw | exact Hfile].
Qed.



Lemma messageObj_status (ts : string) (log : log_arg) :
  prop "status" (messageObj ts log) = Some (or_else (status log) (JStr "N/A")).
Proof. reflexivity. Qed.

(** A request without a level or without a message is answered 400 and
    leaves the world as it was. *)
Lemma write_log_rejects (req_body : json) (w : world) :
  truthy (prop "level" req_body) && truthy (prop "message" req_body) = false ->
  write_log_handler req_body w
  = (Returned (mkResponse 400
                 (Sent (JObj [("error", JStr "Level and message are required")]))),
     w).
Proof.
  intros Hmissing. unfold write_log_handler.
  destruct (truthy (prop "level" req_body)), (truthy (prop "message" req_body));
    try discriminate; reflexivity.
Qed.

Lemma logger_with_logged (ch : channel) (lvl : string) (msg st : option json)
    (old : list json) (w : world) :
  disk_writable w = true ->
  stored w = Some old \/ (log_file w = Missing /\ old = []) ->
  logger_with ch lvl msg st w = (Returned tt, logged ch lvl msg st old w).
Proof.
  intros Hd Hs. rewrite logger_with_run.
  set (w1 := add_console _ (next_tick w)).
  assert (Hw : writeToFile (mkLog lvl msg st) w1
               = (Returned tt,
                  set_file (File (appended old (now_iso (tick w1)) (mkLog lvl msg st)))
                    (next_tick w1))).
  { destruct Hs as [Hs | [Hf ->]].
    - unfold stored in Hs.
      destruct (log_file w) as [| |text] eqn:Hf; try discriminate.
      destruct (JSON_parse text) as [m|v] eqn:Hp; try discriminate.
      destruct v; try discriminate. injection Hs as ->.
      now apply (writeToFile_array (mkLog lvl msg st) w1 text).
    - now apply writeToFile_missing. }
  rewrite Hw. reflexivity.
Qed.


End WriteLogFacts.



(** ** The read endpoint *)

Section LogsFacts.
Context {H : Host}.

Lemma logger_error_returns (msg st : option json) (w : world) :
  exists w', logger_error msg st w = (Returned tt, w').
Proof.
  destruct (logger_with_effect Err "ERROR" msg st w) as (w' & Hw & _).
  exists w'. exact Hw.
Qed.

(** The response of the handler depends on the world through the state of
    the log file only. *)
Lemma logs_handler_response (from to : option string) (cuts : list nat) (w : world) :
  fst (logs_handler from to cuts w)
  = Returned (logs_response from to cuts (log_file w)).
Proof.
  unfold logs_handler, logs_response, bind, console_write, createReadStream.
  set (w0 := add_console (Log, [CReq from to]) w).
  replace (log_file w) with (log_file w0) by reflexivity.
  destruct (falsy_time (bound_time from) && falsy_time (bound_time to));
    destruct (log_file w0) as [| |text]; cbn [fst]; try reflexivity.
  all: match goal with
       | |- context [logger_error ?m ?s ?w0] =>
           destruct (logger_error_returns m s w0) as (w' & ->)
       end; reflexivity.
Qed.

Lemma split_at_append (n : nat) (s : string) :
  fst (split_at n s) ++ snd (split_at n s) = s.
Proof.
  revert s; induction n as [|n IH]; intros s; [reflexivity|].
  destruct s as [|c r]; [reflexivity|].
  cbn [split_at]. specialize (IH r).
  destruct (split_at n r) as [a b]. cbn [fst snd append] in *. now rewrite IH.
Qed.

Lemma concat_cons (x : string) (xs : list string) :
  String.concat "" (x :: xs) = x ++ String.concat "" xs.
Proof.
  destruct xs as [|y ys]; cbn [String.concat]; [now rewrite append_nil_r | reflexivity].
Qed.

Lemma concat_chunk_by (cuts : list nat) :
  forall text, String.concat "" (chunk_by cuts text) = text.
Proof.
  induction cuts as [|n cuts IH]; intros text.
  - destruct text; reflexivity.
  - destruct text as [|c r]; [reflexivity|].
    cbn [chunk_by]. pose proof (split_at_append (S n) (String c r)) as Hs.
    destruct (split_at (S n) (String c r)) as [a b]. cbn [fst snd] in Hs.
    now rewrite concat_cons, IH.
Qed.

(** Without an effective bound the bytes of the file are the body. *)
Lemma logs_response_passthrough (from to : option string) (cuts : list nat)
    (text : string) :
  falsy_time (bound_time from) = true -> falsy_time (bound_time to) = true ->
  logs_response from to cuts (File text) = mkResponse 200 (Streamed text).
Proof.
  intros Hf Ht. unfold logs_response. rewrite Hf, Ht. cbn [andb].
  now rewrite concat_chunk_by.
Qed.

(** C3, as the code has it: a query on a log file that is there and has no
    bytes is answered 200, with the array [[]] when a bound is in effect and
    with the empty body of the file when none is; a query on a log file that
    is not there is answered with the error 500. *)
Theorem logs_of_empty_or_missing_file (from to : option string) (cuts : list nat)
    (w : world) :
  log_file w = File "" \/ log_file w = Missing ->
  fst (logs_handler from to cuts w)
  = Returned
      match log_file w with
      | File _ =>
          mkResponse 200
            (Streamed (if falsy_time (bound_time from) && falsy_time (bound_time to)
                       then "" else "[]"))
      | _ => internal_error
      end.
Proof.
  intros [Hf | Hf]; rewrite logs_handler_response, Hf; [|reflexivity].
  unfold logs_response.
  destruct (falsy_time (bound_time from) && falsy_time (bound_time to));
    destruct cuts; reflexivity.
Qed.

(** *** Bounds that are not in effect *)

Lemma malformed_falsy (param : option string) :
  malformed param -> falsy_time (bound_time param) = true.
Proof.
  intros [-> | [-> | [-> | (s & -> & Hs)]]]; try reflexivity.
  unfold bound_time. destruct (isValidParam (Some s)); [now rewrite Hs | reflexivity].
Qed.

Lemma passesFilter_falsy_from (a a' b : option (option Z)) (t : option Z) :
  falsy_time a = true -> falsy_time a' = true ->
  passesFilter a b t = passesFilter a' b t.
Proof. intros Ha Ha'. unfold passesFilter. now rewrite Ha, Ha'. Qed.

Lemma passesFilter_falsy_to (a b b' : option (option Z)) (t : option Z) :
  falsy_time b = true -> falsy_time b' = true ->
  passesFilter a b t = passesFilter a b' t.
Proof. intros Hb Hb'. unfold passesFilter. now rewrite Hb, Hb'. Qed.

(** The reader looks at its bounds through [passesFilter] only. *)
Lemma on_data_ext (a b a' b' : option (option Z)) :
  (forall t, passesFilter a b t = passesFilter a' b' t) ->
  forall st chunk, on_data a b st chunk = on_data a' b' st chunk.
Proof.
  intros Hp.
  assert (Heach : forall log st, each_log a b log st = each_log a' b' log st).
  { intros log st. unfold each_log. now rewrite Hp. }
  assert (Hall : forall logs st, forEach_log a b logs st = forEach_log a' b' logs st).
  { induction logs as [|log rest IH]; intros st; cbn [forEach_log]; [reflexivity|].
    rewrite Heach. destruct (each_log a' b' log st); [reflexivity | apply IH]. }
  intros st chunk. unfold on_data.
  destruct (JSON_parse (buffer st ++ chunk)) as [m|v]; [reflexivity|].
  destruct v; try reflexivity. now rewrite Hall.
Qed.

Lemma fold_on_data_ext (a b a' b' : option (option Z)) :
  (forall t, passesFilter a b t = passesFilter a' b' t) ->
  forall chunks st,
    fold_left (on_data a b) chunks st = fold_left (on_data a' b') chunks st.
Proof.
  intros Hp. induction chunks as [|c rest IH]; intros st; cbn [fold_left];
    [reflexivity|].
  now rewrite (on_data_ext a b a' b' Hp), IH.
Qed.

Lemma logs_response_ext (from to from' to' : option string) (cuts : list nat)
    (f : fstate) :
  falsy_time (bound_time from) = falsy_time (bound_time from') ->
  falsy_time (bound_time to) = falsy_time (bound_time to') ->
  (forall t, passesFilter (bound_time from) (bound_time to) t
             = passesFilter (bound_time from') (bound_time to') t) ->
  logs_response from to cuts f = logs_response from' to' cuts f.
Proof.
  intros Hf Ht Hp. unfold logs_response. destruct f as [| |text]; try reflexivity.
  rewrite Hf, Ht, (fold_on_data_ext _ _ _ _ Hp). reflexivity.
Qed.

(** C7: a bound that is the text null or undefined, or that is no date,
    is answered exactly as the same query without that bound; this holds for
    [from] and for [to], whatever the other bound, the store and the pieces
    the file is read in, and so such a bound never brings an error about. *)
Theorem malformed_bound_is_absent (bad other : option string) (cuts : list nat)
    (w : world) :
  malformed bad ->
  fst (logs_handler bad other cuts w) = fst (logs_handler None other cuts w)
  /\ fst (logs_handler other bad cuts w) = fst (logs_handler other None cuts w).
Proof.
  intros Hbad. apply malformed_falsy in Hbad.
  rewrite !logs_handler_response. split; f_equal; apply logs_response_ext;
    try reflexivity; try exact Hbad; intros t.
  - now apply passesFilter_falsy_from.
  - now apply passesFilter_falsy_to.
Qed.

End LogsFacts.

Lemma logs_of_empty_or_missing_file_witness :
  fst (@logs_handler Sample.host (Some "2025-01-01T00:00:00.000Z") None []
         Sample.empty_file)
  = Returned (mkResponse 200 (Streamed "[]"))
  /\ fst (@logs_handler Sample.host None None [] Sample.empty_file)
     = Returned (mkResponse 200 (Streamed ""))
  /\ fst (@logs_handler Sample.host None None [] Sample.fresh)
     = Returned internal_error.
Proof.
  split; [|split].
  - apply (@logs_of_empty_or_missing_file Sample.host
             (Some "2025-01-01T00:00:00.000Z") None [] Sample.empty_file).
    left; reflexivity.
  - apply (@logs_of_empty_or_missing_file Sample.host None None []
             Sample.empty_file).
    left; reflexivity.
  - apply (@logs_of_empty_or_missing_file Sample.host None None [] Sample.fresh).
    right; reflexivity.
Defined.

(** C3, as the claim words it, fails: on a log file that does not exist the
    query is answered with the error 500, and on a log file without bytes the
    query without bounds is answered with an empty body, not with [[]]. *)
Lemma missing_store_is_an_error :
  log_file Sample.fresh = Missing
  /\ fst (@logs_handler Sample.host None None [] Sample.fresh)
     = Returned (mkResponse 500
                   (Sent (JObj [("error", JStr "Internal Server Error")])))
  /\ log_file Sample.empty_file = File ""
  /\ fst (@logs_handler Sample.host None None [] Sample.empty_file)
     = Returned (mkResponse 200 (Streamed "")).
Proof. repeat split. Qed.

Lemma malformed_bound_is_absent_witness :
  fst (@logs_handler Sample.host (Some "yesterday") (Some "2025-11-03T10:30:00.000Z")
         [7] Sample.stocked)
  = fst (@logs_handler Sample.host None (Some "2025-11-03T10:30:00.000Z")
           [7] Sample.stocked)
  /\ fst (@logs_handler Sample.host (Some "2025-11-03T10:30:00.000Z") (Some "yesterday")
            [7] Sample.stocked)
     = fst (@logs_handler Sample.host (Some "2025-11-03T10:30:00.000Z") None
              [7] Sample.stocked).
Proof.
  apply (@malformed_bound_is_absent Sample.host (Some "yesterday")
           (Some "2025-11-03T10:30:00.000Z") [7] Sample.stocked).
  right; right; right. exists "yesterday". split; reflexivity.
Defined.

(** ** The range filter *)

Section FilterFacts.
Context {H : Host}.

Lemma tail_text_concat (items : list string) :
  tail_text true items = String.concat "," items.
Proof.
  destruct items as [|x rest]; [reflexivity|].
  cbn [tail_text]. revert x.
  induction rest as [|y rest IH]; intros x.
  - cbn. now rewrite append_nil_r.
  - change (String.concat "," (x :: y :: rest))
      with (x ++ "," ++ String.concat "," (y :: rest)).
    rewrite <- (IH y). reflexivity.
Qed.

(** On entries of the data model the loop never throws; it writes the
    entries it lets through, in their order, a comma before each but the
    first of the response. *)
Lemma forEach_log_entries (a b : option (option Z)) (logs : list json) :
  forallb is_entry logs = true ->
  forall st,
    forEach_log a b logs st
    = (None,
       mkStream (buffer st)
         (isFirstLog st
          && match filter (emitted a b) logs with [] => true | _ => false end)
         (arrayStarted st)
         (written st
          ++ tail_text (isFirstLog st)
               (map (fun e => JSON_stringify e 0) (filter (emitted a b) logs)))).
Proof.
  induction logs as [|log rest IH]; intros Hall st.
  - cbn. rewrite append_nil_r, andb_true_r. now destruct st.
  - cbn [forallb] in Hall. apply andb_prop in Hall as [Hlog Hrest].
    cbn [forEach_log filter]. unfold each_log, emitted.
    destruct log; try discriminate Hlog.
    destruct (truthy (prop "timestamp" (JObj fields))); cbn [negb andb].
    + destruct (passesFilter a b _).
      * rewrite (IH Hrest). cbn [buffer isFirstLog arrayStarted written map tail_text andb].
        rewrite andb_false_r. do 2 f_equal.
        destruct (isFirstLog st); now rewrite !append_assoc.
      * apply (IH Hrest).
    + apply (IH Hrest).
Qed.

Lemma reads_not_nil (buf : string) (chunks : list string) :
  chunks <> [] -> reads buf chunks <> [].
Proof. destruct chunks; [congruence | discriminate]. Qed.

(** While no buffer is a complete text, the reader only accumulates; the
    last piece completes the buffer to the whole of what was read. *)
Lemma fold_on_data_partial (a b : option (option Z)) (chunks : list string) :
  forall buf,
    chunks <> [] ->
    forallb unparsable (removelast (reads buf chunks)) = true ->
    exists before piece,
      before ++ piece = buf ++ String.concat "" chunks
      /\ fold_left (on_data a b) chunks (mkStream buf true false "")
         = on_data a b (mkStream before true false "") piece.
Proof.
  induction chunks as [|c rest IH]; intros buf Hne Hfail; [congruence|].
  destruct rest as [|c2 rest].
  - exists buf, c. split; reflexivity.
  - assert (Hreads : reads buf (c :: c2 :: rest)
                     = (buf ++ c) :: reads (buf ++ c) (c2 :: rest)) by reflexivity.
    rewrite Hreads in Hfail.
    assert (Hrest : reads (buf ++ c) (c2 :: rest) <> [])
      by (apply reads_not_nil; discriminate).
    remember (reads (buf ++ c) (c2 :: rest)) as R eqn:ER.
    destruct R as [|r rs]; [congruence|].
    change (removelast ((buf ++ c) :: r :: rs))
      with ((buf ++ c) :: removelast (r :: rs)) in Hfail.
    cbn [forallb] in Hfail. apply andb_prop in Hfail as [Hc Hfail].
    destruct (IH (buf ++ c)) as (before & piece & Hcat & Hfold).
    { discriminate. }
    { rewrite <- ER. exact Hfail. }
    exists before, piece. split.
    + rewrite Hcat, (concat_cons c), append_assoc. reflexivity.
    + assert (Hstep : on_data a b (mkStream buf true false "") c
                      = mkStream (buf ++ c) true false "").
      { unfold on_data. cbn [buffer isFirstLog arrayStarted written].
        unfold unparsable in Hc.
        destruct (JSON_parse (buf ++ c)); [reflexivity | discriminate]. }
      change (fold_left (on_data a b) (c :: c2 :: rest) (mkStream buf true false ""))
        with (fold_left (on_data a b) (c2 :: rest)
                (on_data a b (mkStream buf true false "") c)).
      rewrite Hstep. exact Hfold.
Qed.

Lemma chunk_by_not_nil (cuts : list nat) (text : string) :
  text <> "" -> chunk_by cuts text <> [].
Proof.
  destruct text as [|c r]; [congruence|]. intros _.
  destruct cuts as [|n cuts]; cbn [chunk_by]; [discriminate|].
  destruct (split_at (S n) (String c r)); discriminate.
Qed.

(** A bound is in effect exactly when it was supplied, is a date, and is
    not the epoch. *)
Lemma falsy_supplied (param : option string) :
  supplied_bound param <> Some 0%Z ->
  falsy_time (bound_time param)
  = match supplied_bound param with None => true | Some _ => false end.
Proof.
  unfold supplied_bound. destruct (bound_time param) as [[t|]|]; try reflexivity.
  intros Hz. cbn. destruct (Z.eqb_spec t 0); [congruence | reflexivity].
Qed.

Lemma emitted_spec (from to : option string) (entry : json) :
  Date_getTime (JStr "") = None ->
  supplied_bound from <> Some 0%Z ->
  supplied_bound to <> Some 0%Z ->
  supplied_bound from <> None \/ supplied_bound to <> None ->
  is_entry entry = true ->
  emitted (bound_time from) (bound_time to) entry
  = spec_passes (supplied_bound from) (supplied_bound to) entry.
Proof.
  intros Hempty Hf Ht Heff Hentry.
  unfold emitted, spec_passes, passesFilter.
  rewrite (falsy_supplied from Hf), (falsy_supplied to Ht).
  destruct entry; try discriminate Hentry. cbn [is_entry prop] in *.
  destruct (assoc "timestamp" fields) as [ts|]; [|reflexivity].
  destruct ts; try discriminate Hentry. cbn [truthy].
  destruct (String.eqb_spec s "") as [-> | Hs]; cbn [negb andb].
  { now rewrite Hempty. }
  unfold supplied_bound in *. unfold js_ge, js_le, time_value.
  destruct (bound_time from) as [[f|]|], (bound_time to) as [[u|]|];
    destruct (Date_getTime (JStr s)) as [t|]; cbn [orb andb];
    try reflexivity; try (now rewrite andb_true_r);
    destruct Heff; congruence.
Qed.

(** X23: the range filter, as the code has it: when at least one bound is in
    effect and none is the epoch, the response to a query on a store of
    entries is the array of the entries that pass the filter of the
    specification, in the order of the store, whatever the pieces the file
    is read in. *)
Lemma filtered_query (from to : option string) (cuts : list nat) (w : world)
    (text : string) (store : list json) :
  log_file w = File text ->
  text <> "" ->
  JSON_parse text = inr (JArr store) ->
  partial_reads_fail (chunk_by cuts text) = true ->
  forallb is_entry store = true ->
  Date_getTime (JStr "") = None ->
  supplied_bound from <> Some 0%Z ->
  supplied_bound to <> Some 0%Z ->
  supplied_bound from <> None \/ supplied_bound to <> None ->
  fst (logs_handler from to cuts w)
  = Returned
      (mkResponse 200
         (Streamed
            (array_text
               (filter (spec_passes (supplied_bound from) (supplied_bound to))
                  store)))).
Proof.
  intros Hfile Hne Hparse Hpartial Hentries Hempty Hf Ht Heff.
  rewrite logs_handler_response, Hfile. unfold logs_response.
  rewrite (falsy_supplied from Hf), (falsy_supplied to Ht).
  assert (Hbranch :
            match supplied_bound from with None => true | Some _ => false end
            && match supplied_bound to with None => true | Some _ => false end
            = false).
  { destruct (supplied_bound from), (supplied_bound to); try reflexivity.
    destruct Heff; congruence. }
  rewrite Hbranch. do 3 f_equal.
  destruct (fold_on_data_partial (bound_time from) (bound_time to)
              (chunk_by cuts text) "" (chunk_by_not_nil cuts text Hne) Hpartial)
    as (before & piece & Hcat & Hfold).
  rewrite concat_chunk_by in Hcat. cbn [append] in Hcat.
  rewrite Hfold. unfold on_data. cbn [buffer isFirstLog arrayStarted written].
  rewrite Hcat, Hparse, (forEach_log_entries _ _ store Hentries).
  cbn [buffer isFirstLog arrayStarted written on_end append].
  unfold array_text. rewrite tail_text_concat.
  rewrite (filter_ext_in (emitted (bound_time from) (bound_time to))
             (spec_passes (supplied_bound from) (supplied_bound to))).
  - reflexivity.
  - intros e He. apply emitted_spec; try assumption.
    rewrite forallb_forall in Hentries. now apply Hentries.
Qed.

End FilterFacts.

Lemma filtered_query_sample :
  fst (@logs_handler Sample.host (Some "2025-11-03T10:30:00.000Z") None [5; 40]
         Sample.stocked)
  = Returned (mkResponse 200 (Streamed (@array_text Sample.host [Sample.late]))).
Proof.
  apply (@filtered_query Sample.host (Some "2025-11-03T10:30:00.000Z") None [5; 40]
           Sample.stocked
           (Reference.stringify (JArr [Sample.untimed; Sample.early; Sample.late]) 2)
           [Sample.untimed; Sample.early; Sample.late]);
    try reflexivity; try discriminate.
  left. discriminate.
Defined.

(** C2, evaluated where it fails: [from] is the epoch, a date, and [to] is
    not given; the store is poured out as it is, with the entry that has no
    timestamp, where the filter of the specification keeps the other two. *)
Theorem epoch_bound_skips_the_filter :
  let store := [Sample.untimed; Sample.early; Sample.late] in
  @supplied_bound Sample.host (Some "1970-01-01T00:00:00.000Z") = Some 0%Z
  /\ fst (@logs_handler Sample.host (Some "1970-01-01T00:00:00.000Z") None []
            Sample.stocked)
     = Returned (mkResponse 200 (Streamed (Reference.stringify (JArr store) 2)))
  /\ Reference.parse_text (Reference.stringify (JArr store) 2) = inr (JArr store)
  /\ filter (@spec_passes Sample.host (Some 0%Z) None) store
     = [Sample.early; Sample.late].
Proof. repeat split. Qed.

(** ** The schedule registry *)

Section ScheduleFacts.
Context {H : Host}.

Lemma map_get_set (k : string) (v : ScheduleConfig) (m : schedule_map) :
  map_get k (map_set k v m) = Some v.
Proof.
  induction m as [|[k' v'] m IH]; cbn [map_set map_get].
  - now rewrite String.eqb_refl.
  - destruct (k =? k') eqn:E; cbn [map_get]; rewrite ?String.eqb_refl, ?E;
      [reflexivity | exact IH].
Qed.

End ScheduleFacts.

(** C9, as the claim words it, fails: with an interpreter that cannot be
    reached, [createSchedule] throws and returns nothing. *)
Lemma createSchedule_can_fail :
  fst (@createSchedule Sample.host "https://x/logs" "every 30 minutes"
         Sample.offline None None Sample.manager0)
  = Threw (Error "Failed to create schedule: fetch failed").
Proof. reflexivity. Qed.

Lemma createSchedule_sample :
  exists c,
    fst (@createSchedule Sample.host "https://x/logs" "every 30 minutes"
           Sample.every_30_minutes None None Sample.manager0)
    = Returned c
    /\ created_id c = "schedule-1-1762165800001"
    /\ created_cronExpression c = "*/30 * * * *".
Proof. eexists. repeat split. Qed.

(** ** The log fetch *)

Section FetchFacts.
Context {H : Host}.

(** C10: when the log source answers 401 or 403, [getLogs] throws a failure
    whose message starts with [Authentication required]; when it answers any
    other status outside 200..299, [getLogs] throws a failure whose message
    starts with [Failed to fetch logs]; neither message starts like the
    other, so a caller tells the two apart. *)
Theorem getLogs_classifies_failures (from to : option string) (url : string)
    (authToken : option string) (fetch : network) (r : fetch_response) :
  fetch (logs_request from to url authToken) = inr r ->
  (resp_status r = 401 \/ resp_status r = 403 ->
   exists e,
     getLogs from to url authToken fetch = Threw e
     /\ auth_required e = true /\ fetch_failed e = false)
  /\ (resp_ok r = false -> resp_status r <> 401 -> resp_status r <> 403 ->
      exists e,
        getLogs from to url authToken fetch = Threw e
        /\ auth_required e = false /\ fetch_failed e = true).
Proof.
  intros Hfetch. unfold getLogs. rewrite Hfetch. split.
  - intros Hs.
    assert (Hok : resp_ok r = false)
      by (unfold resp_ok; destruct Hs as [-> | ->]; reflexivity).
    assert (Hauth : ((resp_status r =? 401) || (resp_status r =? 403))%nat = true)
      by (destruct Hs as [-> | ->]; reflexivity).
    rewrite Hok, Hauth. cbn [negb]. eexists. repeat split.
  - intros Hok H401 H403. rewrite Hok. cbn [negb].
    apply Nat.eqb_neq in H401, H403. rewrite H401, H403. cbn [orb].
    eexists. repeat split.
Qed.

End FetchFacts.

Lemma getLogs_classifies_failures_witness :
  (exists e,
      @getLogs Sample.host None None "https://x/logs" None
        (Sample.answers Sample.forbidden) = Threw e
      /\ auth_required e = true /\ fetch_failed e = false)
  /\ (exists e,
         @getLogs Sample.host None None "https://x/logs" None
           (Sample.answers Sample.broken) = Threw e
         /\ auth_required e = false /\ fetch_failed e = true).
Proof.
  split.
  - apply (@getLogs_classifies_failures Sample.host None None "https://x/logs" None
             (Sample.answers Sample.forbidden) Sample.forbidden eq_refl).
    right; reflexivity.
  - apply (@getLogs_classifies_failures Sample.host None None "https://x/logs" None
             (Sample.answers Sample.broken) Sample.broken eq_refl);
      [reflexivity | discriminate | discriminate].
Defined.

(** ** Write, then read *)

Section RoundTripFacts.
Context {H : Host}.


End RoundTripFacts.

(** C5, evaluated where it fails: the entry [{level: ERROR, message, status}]
    is accepted by [/api/write-log], and the query without bounds that
    follows returns the store, whose last element has the message and the
    status of the entry, and the level INFO. *)
Theorem write_then_read_loses_level :
  prop "level" Sample.error_report = Some (JStr "ERROR")
  /\ fst ((@write_log_handler Sample.host Sample.error_report ;;;
           @logs_handler Sample.host None None [])%js Sample.fresh)
     = Returned (mkResponse 200
                   (Streamed (Reference.stringify (JArr [Sample.persisted_report]) 2)))
  /\ Reference.parse_text (Reference.stringify (JArr [Sample.persisted_report]) 2)
     = inr (JArr [Sample.persisted_report])
  /\ prop "level" Sample.persisted_report = Some (JStr "INFO")
  /\ prop "message" Sample.persisted_report = prop "message" Sample.error_report
  /\ prop "status" Sample.persisted_report = prop "status" Sample.error_report.
Proof. repeat split; vm_compute; reflexivity. Qed.

(** ** The registry as a map *)

Lemma map_get_In (k : string) (v : ScheduleConfig) (m : schedule_map) :
  map_get k m = Some v -> In (k, v) m.
Proof.
  induction m as [|[k' v'] m IH]; cbn [map_get]; [discriminate|].
  destruct (String.eqb_spec k k') as [-> | Hne].
  - intros [= ->]. now left.
  - intros Hg. right. now apply IH.
Qed.

Lemma map_get_None (k : string) (m : schedule_map) :
  map_get k m = None <-> ~ In k (map fst m).
Proof.
  induction m as [|[k' v'] m IH]; cbn [map_get map fst In]; [tauto|].
  destruct (String.eqb_spec k k') as [-> | Hne].
  - split; [discriminate | intros Hn; exfalso; apply Hn; now left].
  - rewrite IH. split; [intros Hn [He | Hi]; [congruence | tauto] | tauto].
Qed.

Lemma map_set_fresh (k : string) (v : ScheduleConfig) (m : schedule_map) :
  map_get k m = None -> map_set k v m = (m ++ [(k, v)])%list.
Proof.
  induction m as [|[k' v'] m IH]; cbn [map_get map_set app]; [reflexivity|].
  destruct (k =? k'); [discriminate|]. intros Hg. now rewrite IH.
Qed.

Lemma map_set_keys (k : string) (v : ScheduleConfig) (m : schedule_map) :
  map fst (map_set k v m)
  = match map_get k m with
    | None => (map fst m ++ [k])%list
    | Some _ => map fst m
    end.
Proof.
  induction m as [|[k' v'] m IH]; cbn [map_get map_set map fst app]; [reflexivity|].
  destruct (String.eqb_spec k k') as [-> | Hne]; [reflexivity|].
  cbn [map fst]. rewrite IH. now destruct (map_get k m).
Qed.

Lemma map_get_set_other (k k' : string) (v : ScheduleConfig) (m : schedule_map) :
  k <> k' -> map_get k' (map_set k v m) = map_get k' m.
Proof.
  intros Hne. induction m as [|[k0 v0] m IH]; cbn [map_set map_get].
  - destruct (String.eqb_spec k' k); [congruence | reflexivity].
  - destruct (String.eqb_spec k k0) as [-> | Hk]; cbn [map_get].
    + destruct (String.eqb_spec k' k0); [congruence | reflexivity].
    + now rewrite IH.
Qed.

Lemma map_delete_filter (k : string) (m : schedule_map) :
  NoDup (map fst m) ->
  map_delete k m = filter (fun kv => negb (fst kv =? k)) m.
Proof.
  induction m as [|[k' v'] m IH]; intros Hnd; cbn [map_delete filter fst];
    [reflexivity|].
  cbn [map fst] in Hnd. inversion Hnd as [|? ? Hnotin Hnd']; subst.
  rewrite (String.eqb_sym k' k).
  destruct (String.eqb_spec k k') as [-> | Hne]; cbn [negb].
  - symmetry. apply forallb_filter_id. apply forallb_forall.
    intros [k0 v0] Hin. cbn [fst].
    destruct (String.eqb_spec k0 k') as [-> | Hk]; [|reflexivity].
    exfalso. apply Hnotin. now apply (in_map fst) in Hin.
  - now rewrite IH.
Qed.

Lemma NoDup_filter_keys (f : string * ScheduleConfig -> bool) (m : schedule_map) :
  NoDup (map fst m) -> NoDup (map fst (filter f m)).
Proof.
  induction m as [|kv m IH]; intros Hnd; cbn [filter map]; [constructor|].
  cbn [map] in Hnd. inversion Hnd as [|? ? Hnotin Hnd']; subst.
  destruct (f kv); [|now apply IH].
  cbn [map]. constructor; [|now apply IH].
  intros Hin. apply Hnotin. apply in_map_iff in Hin as (kv' & Hk & Hin).
  apply filter_In in Hin as [Hin _]. rewrite <- Hk. now apply in_map.
Qed.

Lemma keys_determine (m : schedule_map) (a b : string * ScheduleConfig) :
  NoDup (map fst m) -> In a m -> In b m -> fst a = fst b -> a = b.
Proof.
  induction m as [|kv m IH]; intros Hnd Ha Hb Hk; [contradiction|].
  cbn [map] in Hnd. inversion Hnd as [|? ? Hnotin Hnd']; subst.
  destruct Ha as [-> | Ha], Hb as [-> | Hb]; try reflexivity.
  - exfalso. apply Hnotin. rewrite Hk. now apply in_map.
  - exfalso. apply Hnotin. rewrite <- Hk. now apply in_map.
  - now apply IH.
Qed.

Lemma map_get_of_In (m : schedule_map) (k : string) (v : ScheduleConfig) :
  NoDup (map fst m) -> In (k, v) m -> map_get k m = Some v.
Proof.
  intros Hnd Hin. destruct (map_get k m) as [v'|] eqn:Hg.
  - apply map_get_In in Hg.
    now injection (keys_determine m (k, v') (k, v) Hnd Hg Hin eq_refl) as ->.
  - apply map_get_None in Hg. exfalso. apply Hg.
    now apply (in_map fst) in Hin.
Qed.

Lemma filter_twice {A} (f g : A -> bool) (l : list A) :
  filter g (filter f l) = filter (fun x => f x && g x) l.
Proof.
  induction l as [|x l IH]; cbn [filter]; [reflexivity|].
  destruct (f x); cbn [filter andb]; [destruct (g x)|]; now rewrite IH.
Qed.

(** Deleting several keys, one after the other, is one filter. *)
Lemma delete_all_filter (ks : list string) :
  forall m : schedule_map,
    NoDup (map fst m) ->
    fold_left (fun remaining k => map_delete k remaining) ks m
    = filter (fun kv => negb (existsb (String.eqb (fst kv)) ks)) m.
Proof.
  induction ks as [|k ks IH]; intros m Hnd; cbn [fold_left existsb].
  - symmetry. apply forallb_filter_id. now apply forallb_forall.
  - rewrite (map_delete_filter k m Hnd), IH by now apply NoDup_filter_keys.
    rewrite filter_twice. apply filter_ext. intros kv.
    now destruct (fst kv =? k).
Qed.

Lemma fold_left_on_map {A B C} (f : A -> C -> A) (g : B -> C) (l : list B) :
  forall a, fold_left f (map g l) a = fold_left (fun x y => f x (g y)) l a.
Proof. induction l as [|y l IH]; intros a; cbn [map fold_left]; auto. Qed.

(** ** The schedule registry: invariants *)

Section RegistryFacts.
Context {H : Host}.

Lemma createSchedule_success (ep iv : string) (ag : agent)
    (opt_authToken opt_timeRange : option string) (m : ScheduleManager)
    (text : string) :
  ag (mkPrompt (now_iso (readings m)) iv) = inr (Some text) ->
  let sid := schedule_id (S (scheduleCounter m))
               (ToString (Some (JNum (now_ms (S (readings m)))))) in
  let cron := strip_quotes (trim text) in
  createSchedule ep iv ag opt_authToken opt_timeRange m
  = (Returned (mkCreated sid cron (created_text sid cron ep iv)),
     mkManager
       (map_set sid
          (mkConfig sid ep iv cron opt_authToken
             (Some (timeRange_or_default opt_timeRange))
             (now_iso (S (S (readings m)))))
          (schedules m))
       (S (scheduleCounter m)) (S (S (S (readings m))))).
Proof.
  intros Hag. unfold createSchedule, parseToCronExpression. now rewrite Hag.
Qed.

Lemma createSchedule_failure (ep iv : string) (ag : agent)
    (opt_authToken opt_timeRange : option string) (m : ScheduleManager) :
  (forall text, ag (mkPrompt (now_iso (readings m)) iv) <> inr (Some text)) ->
  snd (createSchedule ep iv ag opt_authToken opt_timeRange m)
  = mkManager (schedules m) (scheduleCounter m) (S (readings m)).
Proof.
  intros Hag. unfold createSchedule, parseToCronExpression.
  destruct (ag (mkPrompt (now_iso (readings m)) iv)) as [e | [text|]];
    [reflexivity | now destruct (Hag text) | reflexivity].
Qed.

Lemma cancelSchedulesByEndpoint_schedules (ep : string) (m : ScheduleManager) :
  registry_ok m ->
  schedules (snd (cancelSchedulesByEndpoint ep m))
  = filter (fun kv => negb (endpoint (snd kv) =? ep)) (schedules m).
Proof.
  intros [Hnd Hids]. unfold cancelSchedulesByEndpoint.
  assert (Hall :
            fold_left (fun remaining schedule => map_delete (id schedule) remaining)
              (schedules_of_endpoint ep m) (schedules m)
            = filter (fun kv => negb (endpoint (snd kv) =? ep)) (schedules m)).
  { rewrite <- (fold_left_on_map
                  (fun remaining k => map_delete k remaining) id).
    rewrite (delete_all_filter _ _ Hnd).
    apply filter_ext_in. intros kv Hin. f_equal.
    rewrite Forall_forall in Hids.
    destruct (endpoint (snd kv) =? ep) eqn:Hep.
    - apply existsb_exists. exists (id (snd kv)). split.
      + apply in_map. unfold schedules_of_endpoint. apply filter_In.
        split; [now apply in_map | exact Hep].
      + rewrite (Hids kv Hin). apply String.eqb_refl.
    - apply not_true_is_false. intros Hex.
      apply existsb_exists in Hex as (k & Hk & Heq).
      apply String.eqb_eq in Heq. subst k.
      apply in_map_iff in Hk as (c & Hc & Hin').
      unfold schedules_of_endpoint in Hin'. apply filter_In in Hin' as [Hin' Hepc].
      apply in_map_iff in Hin' as (kv' & <- & Hin').
      assert (kv' = kv).
      { apply (keys_determine (schedules m)); try assumption.
        now rewrite <- (Hids kv' Hin'). }
      subst kv'. congruence. }
  destruct (schedules_of_endpoint ep m) as [|c cs] eqn:E.
  - cbn [snd]. unfold schedules_of_endpoint in E. cbn [fold_left] in Hall.
    exact Hall.
  - cbn [snd schedules]. exact Hall.
Qed.

Lemma Forall_map_set (P : string * ScheduleConfig -> Prop) (k : string)
    (v : ScheduleConfig) (m : schedule_map) :
  P (k, v) -> Forall P m -> Forall P (map_set k v m).
Proof.
  intros Hkv. induction m as [|[k' v'] m IH]; intros Hall; cbn [map_set].
  - now constructor.
  - inversion Hall as [|? ? Hhead Htail]; subst.
    destruct (k =? k'); constructor; auto.
Qed.

Lemma Forall_filter_keep {A} (P : A -> Prop) (f : A -> bool) (l : list A) :
  Forall P l -> Forall P (filter f l).
Proof.
  rewrite !Forall_forall. intros Hall x Hin. apply filter_In in Hin as [Hin _].
  now apply Hall.
Qed.

Lemma NoDup_map_set (k : string) (v : ScheduleConfig) (m : schedule_map) :
  NoDup (map fst m) -> NoDup (map fst (map_set k v m)).
Proof.
  intros Hnd. rewrite map_set_keys. destruct (map_get k m) eqn:Hg; [exact Hnd|].
  apply map_get_None in Hg. apply NoDup_app; [exact Hnd | repeat constructor; auto |].
  intros x Hx [<- | []]. contradiction.
Qed.

Lemma apply_command_ok (c : command) (m : ScheduleManager) :
  registry_ok m -> registry_ok (apply_command c m).
Proof.
  intros Hok. pose proof Hok as [Hnd Hids].
  destruct c as [ep iv ag a t | sid | ep | ]; cbn [apply_command].
  - destruct (ag (mkPrompt (now_iso (readings m)) iv)) as [e | [text|]] eqn:Hag.
    + rewrite createSchedule_failure by (intros text; congruence). exact Hok.
    + rewrite (createSchedule_success ep iv ag a t m text Hag). cbn [snd].
      split; cbn [schedules].
      * now apply NoDup_map_set.
      * now apply Forall_map_set.
    + rewrite createSchedule_failure by (intros text; congruence). exact Hok.
  - unfold cancelSchedule. destruct (map_get sid (schedules m)); [|exact Hok].
    cbn [snd]. split; cbn [schedules]; rewrite (map_delete_filter _ _ Hnd).
    + now apply NoDup_filter_keys.
    + now apply Forall_filter_keep.
  - split; rewrite (cancelSchedulesByEndpoint_schedules ep m Hok).
    + now apply NoDup_filter_keys.
    + now apply Forall_filter_keep.
  - unfold cancelAllSchedules. destruct (List.length (schedules m)); [exact Hok|].
    cbn [snd]. split; cbn [schedules map]; constructor.
Qed.

Lemma run_commands_ok (cs : list command) :
  forall m, registry_ok m -> registry_ok (run_commands cs m).
Proof.
  induction cs as [|c cs IH]; intros m Hok; [exact Hok|].
  cbn [run_commands fold_left]. apply IH. now apply apply_command_ok.
Qed.

Lemma started_ok (r : nat) : registry_ok (started r).
Proof. split; constructor. Qed.

End RegistryFacts.

(** ** The schedule registry: what its users rely on *)

Section RegistryUse.
Context {H : Host}.

Lemma map_get_delete_same (k : string) (m : schedule_map) :
  NoDup (map fst m) -> map_get k (map_delete k m) = None.
Proof.
  induction m as [|[k' v'] m IH]; intros Hnd; cbn [map_delete]; [reflexivity|].
  cbn [map fst] in Hnd. inversion Hnd as [|? ? Hnotin Hnd']; subst.
  destruct (String.eqb_spec k k') as [-> | Hne].
  - now apply map_get_None.
  - cbn [map_get]. destruct (String.eqb_spec k k'); [congruence | now apply IH].
Qed.

Lemma map_get_delete_other (k other : string) (m : schedule_map) :
  other <> k -> map_get other (map_delete k m) = map_get other m.
Proof.
  intros Hne. induction m as [|[k' v'] m IH]; cbn [map_delete map_get];
    [reflexivity|].
  destruct (String.eqb_spec k k') as [<- | Hk]; cbn [map_get].
  - destruct (String.eqb_spec other k); [congruence | reflexivity].
  - now rewrite IH.
Qed.

Lemma map_delete_absent (k : string) (m : schedule_map) :
  map_get k m = None -> map_delete k m = m.
Proof.
  induction m as [|[k' v'] m IH]; cbn [map_get map_delete]; [reflexivity|].
  destruct (k =? k'); [discriminate|]. intros Hg. now rewrite IH.
Qed.

Lemma map_delete_last (k : string) (v : ScheduleConfig) (m : schedule_map) :
  map_get k m = None -> map_delete k (m ++ [(k, v)])%list = m.
Proof.
  induction m as [|[k' v'] m IH]; cbn [map_get map_delete app].
  - now rewrite String.eqb_refl.
  - destruct (k =? k'); [discriminate|]. intros Hg. now rewrite IH.
Qed.

(** X1: in a registry built by any calls since the start of the process,
    the configuration found under an identifier carries that identifier. *)
Theorem registry_files_by_id (cs : list command) (r : nat) (sid : string)
    (config : ScheduleConfig) :
  getSchedule sid (run_commands cs (started r)) = Some config ->
  id config = sid.
Proof.
  intros Hg. destruct (run_commands_ok cs (started r) (started_ok r)) as [_ Hids].
  rewrite Forall_forall in Hids. apply map_get_In in Hg.
  exact (Hids (sid, config) Hg).
Qed.

(** X2: [cancelSchedule] succeeds exactly when the identifier is
    registered; afterwards the identifier is not registered, every other
    identifier is looked up as before, and cancelling an unknown identifier
    leaves the registry as it was. *)
Theorem cancelSchedule_removes_one (cs : list command) (r : nat) (sid : string) :
  let m := run_commands cs (started r) in
  let result := cancelSchedule sid m in
  cancel_success (fst result)
  = match getSchedule sid m with Some _ => true | None => false end
  /\ getSchedule sid (snd result) = None
  /\ (forall other, other <> sid ->
        getSchedule other (snd result) = getSchedule other m)
  /\ (getSchedule sid m = None -> snd result = m).
Proof.
  cbv zeta. set (m := run_commands cs (started r)).
  destruct (run_commands_ok cs (started r) (started_ok r)) as [Hnd _]. fold m in Hnd.
  unfold cancelSchedule, getSchedule.
  destruct (map_get sid (schedules m)) as [config|] eqn:Hg; cbn [fst snd schedules
    cancel_success].
  - repeat split.
    + now apply map_get_delete_same.
    + intros other Hne. now apply map_get_delete_other.
    + discriminate.
  - split; [reflexivity|]. split; [exact Hg|]. split; reflexivity.
Qed.

Lemma none_left_of_endpoint (ep : string) (l : schedule_map) :
  filter (fun schedule => endpoint schedule =? ep)
    (map snd (filter (fun kv => negb (endpoint (snd kv) =? ep)) l))
  = [].
Proof.
  induction l as [|kv l IH]; cbn [filter map]; [reflexivity|].
  destruct (endpoint (snd kv) =? ep) eqn:E; cbn [negb]; [exact IH|].
  cbn [map filter]. now rewrite E.
Qed.

(** X3: [cancelSchedulesByEndpoint] removes the schedules of that endpoint
    and no other: the schedules of other endpoints stay, in their order; its
    count is the number of schedules the endpoint had, and it succeeds
    exactly when that number is not zero. *)
Theorem cancelSchedulesByEndpoint_removes_endpoint (cs : list command) (r : nat)
    (ep : string) :
  let m := run_commands cs (started r) in
  let result := cancelSchedulesByEndpoint ep m in
  schedules (snd result)
  = filter (fun kv => negb (endpoint (snd kv) =? ep)) (schedules m)
  /\ schedules_of_endpoint ep (snd result) = []
  /\ cancel_count (fst result) = Some (List.length (schedules_of_endpoint ep m))
  /\ cancel_success (fst result)
     = negb (List.length (schedules_of_endpoint ep m) =? 0)%nat.
Proof.
  cbv zeta. set (m := run_commands cs (started r)).
  pose proof (run_commands_ok cs (started r) (started_ok r)) as Hok. fold m in Hok.
  pose proof (cancelSchedulesByEndpoint_schedules ep m Hok) as Hs.
  split; [exact Hs|]. split.
  { unfold schedules_of_endpoint. rewrite Hs. apply none_left_of_endpoint. }
  unfold cancelSchedulesByEndpoint.
  destruct (schedules_of_endpoint ep m); split; reflexivity.
Qed.

(** *** Identifiers do not collide *)

Lemma hyphen_splits (x y s t : string) :
  has_hyphen x = false -> has_hyphen y = false ->
  x ++ "-" ++ s = y ++ "-" ++ t -> x = y.
Proof.
  revert y. induction x as [|c x IH]; intros [|d y] Hx Hy Heq; cbn in *.
  - reflexivity.
  - injection Heq as <- _. cbn in Hy. discriminate.
  - injection Heq as -> _. cbn in Hx. discriminate.
  - injection Heq as <- Heq. apply orb_false_elim in Hx as [_ Hx].
    apply orb_false_elim in Hy as [_ Hy]. f_equal. now apply IH with (y := y).
Qed.

Lemma schedule_id_counter (a b : nat) (s t : string) :
  counts_print_plainly -> schedule_id a s = schedule_id b t -> a = b.
Proof.
  intros [Hplain Hinj] Heq. unfold schedule_id in Heq.
  cbn [append] in Heq. injection Heq as Heq.
  apply Hinj. apply (hyphen_splits _ _ s t); auto.
Qed.

Lemma apply_command_counted (c : command) (m : ScheduleManager) :
  registry_ok m -> ids_counted m -> ids_counted (apply_command c m).
Proof.
  intros Hok Hc. pose proof Hok as [Hnd _]. unfold ids_counted in *.
  destruct c as [ep iv ag a t | sid | ep | ]; cbn [apply_command].
  - destruct (ag (mkPrompt (now_iso (readings m)) iv)) as [e | [text|]] eqn:Hag.
    + rewrite createSchedule_failure by (intros text; congruence). exact Hc.
    + rewrite (createSchedule_success ep iv ag a t m text Hag).
      cbn [snd schedules scheduleCounter]. apply Forall_map_set.
      * cbn [fst]. eexists. eexists. split; [reflexivity | lia].
      * eapply Forall_impl; [|exact Hc].
        intros kv (counter & now & Hk & Hle). exists counter, now. split; [exact Hk | lia].
    + rewrite createSchedule_failure by (intros text; congruence). exact Hc.
  - unfold cancelSchedule. destruct (map_get sid (schedules m)); [|exact Hc].
    cbn [snd schedules scheduleCounter]. rewrite (map_delete_filter _ _ Hnd).
    now apply Forall_filter_keep.
  - rewrite (cancelSchedulesByEndpoint_schedules ep m Hok).
    replace (scheduleCounter (snd (cancelSchedulesByEndpoint ep m)))
      with (scheduleCounter m)
      by (unfold cancelSchedulesByEndpoint;
          destruct (schedules_of_endpoint ep m); reflexivity).
    now apply Forall_filter_keep.
  - unfold cancelAllSchedules. destruct (List.length (schedules m)); [exact Hc|].
    cbn [snd schedules]. constructor.
Qed.

Lemma run_commands_counted (cs : list command) :
  forall m, registry_ok m -> ids_counted m -> ids_counted (run_commands cs m).
Proof.
  induction cs as [|c cs IH]; intros m Hok Hc; [exact Hc|].
  cbn [run_commands fold_left]. apply IH.
  - now apply apply_command_ok.
  - now apply apply_command_counted.
Qed.

Lemma next_id_is_fresh (cs : list command) (r : nat) (now : string) :
  counts_print_plainly ->
  let m := run_commands cs (started r) in
  map_get (schedule_id (S (scheduleCounter m)) now) (schedules m) = None.
Proof.
  intros Hlaw m.
  assert (Hc : ids_counted m).
  { apply run_commands_counted; [apply started_ok | constructor]. }
  apply map_get_None. intros Hin. apply in_map_iff in Hin as (kv & Hk & Hin).
  unfold ids_counted in Hc. rewrite Forall_forall in Hc.
  destruct (Hc kv Hin) as (counter & now' & Hk' & Hle).
  rewrite Hk' in Hk. apply (schedule_id_counter _ _ _ _ Hlaw) in Hk. lia.
Qed.

(** C9, as the code has it. In a registry built by any calls since the
    start of the process, on a host that prints counts plainly:
    [createSchedule] succeeds when the interpreter answers with a text; the
    identifier it returns is new, not registered before the call; after the
    call the registry holds under it the configuration of the call, with the
    answer trimmed and stripped of quotes as its cron expression, every
    other identifier is looked up as before, and the counter has moved by
    one. When the interpreter fails or answers without a text,
    [createSchedule] throws [Failed to create schedule: ...] and the
    schedules and the counter are as they were. *)
Theorem createSchedule_outcome (cs : list command) (r : nat) (ep iv : string)
    (ag : agent) (opt_authToken opt_timeRange : option string) :
  counts_print_plainly ->
  let m := run_commands cs (started r) in
  let result := createSchedule ep iv ag opt_authToken opt_timeRange m in
  match ag (mkPrompt (now_iso (readings m)) iv) with
  | inr (Some text) =>
      exists c config,
        fst result = Returned c
        /\ created_cronExpression c = strip_quotes (trim text)
        /\ created_message c
           = created_text (created_id c) (strip_quotes (trim text)) ep iv
        /\ scheduleCounter (snd result) = S (scheduleCounter m)
        /\ getSchedule (created_id c) m = None
        /\ getSchedule (created_id c) (snd result) = Some config
        /\ (forall other,
              other <> created_id c ->
              getSchedule other (snd result) = getSchedule other m)
        /\ id config = created_id c
        /\ endpoint config = ep
        /\ interval config = iv
        /\ cronExpression config = strip_quotes (trim text)
        /\ authToken config = opt_authToken
        /\ timeRange config = Some (timeRange_or_default opt_timeRange)
  | inr None =>
      fst result
      = Threw (Error ("Failed to create schedule: "
                      ++ "Cannot read properties of undefined (reading 'trim')"))
      /\ schedules (snd result) = schedules m
      /\ scheduleCounter (snd result) = scheduleCounter m
  | inl e =>
      fst result = Threw (Error ("Failed to create schedule: " ++ exn_message e))
      /\ schedules (snd result) = schedules m
      /\ scheduleCounter (snd result) = scheduleCounter m
  end.
Proof.
  intros Hlaw m. cbv zeta.
  destruct (ag (mkPrompt (now_iso (readings m)) iv)) as [e | [text|]] eqn:Hag.
  - unfold createSchedule, parseToCronExpression. rewrite Hag. repeat split.
  - rewrite (createSchedule_success ep iv ag opt_authToken opt_timeRange m text Hag).
    cbn [fst snd scheduleCounter]. unfold getSchedule. cbn [schedules].
    eexists. eexists. split; [reflexivity|]. cbn [created_id created_cronExpression
      created_message].
    split; [reflexivity|]. split; [reflexivity|]. split; [reflexivity|].
    split; [apply (next_id_is_fresh cs r _ Hlaw)|].
    split; [apply map_get_set|].
    split; [intros other Hother; apply map_get_set_other; congruence|].
    repeat split.
  - unfold createSchedule, parseToCronExpression. rewrite Hag. repeat split.
Qed.

(** X4: on a host that prints counts plainly, a successful [createSchedule]
    never replaces a schedule: what [listSchedules] shows afterwards is what
    it showed before, followed by the new schedule with its endpoint, its
    interval, the cron expression of the interpreter stripped of blanks and
    quotes, and the time range given or else [last 1 hour]. *)
Theorem createSchedule_appends (cs : list command) (r : nat) (ep iv : string)
    (ag : agent) (opt_authToken opt_timeRange : option string) (text : string) :
  counts_print_plainly ->
  let m := run_commands cs (started r) in
  ag (mkPrompt (now_iso (readings m)) iv) = inr (Some text) ->
  listSchedules (snd (createSchedule ep iv ag opt_authToken opt_timeRange m))
  = (listSchedules m
     ++ [mkListed
           (schedule_id (S (scheduleCounter m))
              (ToString (Some (JNum (now_ms (S (readings m)))))))
           ep iv (strip_quotes (trim text)) (now_iso (S (S (readings m))))
           (Some (timeRange_or_default opt_timeRange))])%list.
Proof.
  intros Hlaw m Hag.
  rewrite (createSchedule_success ep iv ag opt_authToken opt_timeRange m text Hag).
  cbn [snd]. unfold listSchedules. cbn [schedules].
  rewrite map_set_fresh by (apply (next_id_is_fresh cs r _ Hlaw)).
  now rewrite !map_app.
Qed.

(** X5: on a host that prints counts plainly, cancelling the identifier a
    successful [createSchedule] returned succeeds and leaves the schedules
    the registry had before the creation. *)
Theorem cancel_undoes_create (cs : list command) (r : nat) (ep iv : string)
    (ag : agent) (opt_authToken opt_timeRange : option string) (text : string) :
  counts_print_plainly ->
  let m := run_commands cs (started r) in
  ag (mkPrompt (now_iso (readings m)) iv) = inr (Some text) ->
  exists c m',
    createSchedule ep iv ag opt_authToken opt_timeRange m = (Returned c, m')
    /\ cancel_success (fst (cancelSchedule (created_id c) m')) = true
    /\ schedules (snd (cancelSchedule (created_id c) m')) = schedules m.
Proof.
  intros Hlaw m Hag. eexists. eexists. split.
  { apply (createSchedule_success ep iv ag opt_authToken opt_timeRange m text Hag). }
  cbn [created_id]. unfold cancelSchedule. cbn [schedules].
  rewrite map_get_set. cbn [fst snd cancel_success schedules].
  split; [reflexivity|].
  rewrite map_set_fresh by (apply (next_id_is_fresh cs r _ Hlaw)).
  apply map_delete_last. apply (next_id_is_fresh cs r _ Hlaw).
Qed.

End RegistryUse.

(** The reference host prints counts plainly. *)
Lemma reference_counts_print_plainly : @counts_print_plainly Sample.host.
Proof.
  split.
  - intros n. unfold count_text. cbn [ToString Sample.host Reference.host
      Reference.coerce Reference.to_string]. unfold Reference.print_Z.
    assert (Hd : forall d, has_hyphen (DecimalString.NilEmpty.string_of_uint d) = false)
      by (induction d; cbn; auto).
    destruct (Z.of_nat n) eqn:E; cbn [Z.to_int DecimalString.NilEmpty.string_of_int];
      [apply Hd | apply Hd | lia].
  - intros a b Heq. unfold count_text in Heq.
    cbn [ToString Sample.host Reference.host Reference.coerce Reference.to_string]
      in Heq.
    apply Nat2Z.inj.
    pose proof (ReferenceFacts.lex_print_Z (Z.of_nat a) [] "" I) as Ha.
    pose proof (ReferenceFacts.lex_print_Z (Z.of_nat b) [] "" I) as Hb.
    rewrite Heq in Ha. rewrite Ha in Hb. cbn in Hb. now injection Hb.
Qed.

Lemma registry_files_by_id_witness :
  exists config,
    getSchedule "schedule-1-1762165800001"
      (@run_commands Sample.host Sample.two_creates (started 0))
    = Some config
    /\ id config = "schedule-1-1762165800001".
Proof.
  eexists. split; [reflexivity|].
  apply (@registry_files_by_id Sample.host Sample.two_creates 0). reflexivity.
Defined.

Lemma createSchedule_outcome_witness :
  exists c config,
    fst (@createSchedule Sample.host "https://y/logs" "every morning"
           Sample.every_morning (Some "secret") None
           (@run_commands Sample.host Sample.two_creates (started 0)))
    = Returned c
    /\ created_cronExpression c = "0 9 * * *"
    /\ getSchedule (created_id c)
         (@run_commands Sample.host Sample.two_creates (started 0))
       = None
    /\ getSchedule (created_id c)
         (snd (@createSchedule Sample.host "https://y/logs" "every morning"
                 Sample.every_morning (Some "secret") None
                 (@run_commands Sample.host Sample.two_creates (started 0))))
       = Some config
    /\ cronExpression config = "0 9 * * *".
Proof.
  destruct (@createSchedule_outcome Sample.host Sample.two_creates 0
              "https://y/logs" "every morning" Sample.every_morning (Some "secret")
              None reference_counts_print_plainly)
    as (c & config & Hc & Hcron & _ & _ & Hnew & Hget & _ & _ & _ & _ & Hcron' & _).
  exists c, config. split; [exact Hc|]. split; [exact Hcron|].
  split; [exact Hnew|]. split; [exact Hget | exact Hcron'].
Defined.

Lemma createSchedule_appends_witness :
  listSchedules
    (snd (@createSchedule Sample.host "https://y/logs" "every morning"
            Sample.every_morning (Some "secret") None
            (@run_commands Sample.host Sample.two_creates (started 0))))
  = (listSchedules (@run_commands Sample.host Sample.two_creates (started 0))
     ++ [mkListed "schedule-3-1762165800007" "https://y/logs" "every morning"
           "0 9 * * *" (Reference.clock_iso 8) (Some "last 1 hour")])%list.
Proof.
  apply (@createSchedule_appends Sample.host Sample.two_creates 0
           "https://y/logs" "every morning" Sample.every_morning (Some "secret") None
           (Sample.nbsp ++ "0 9 * * *" ++ Sample.nbsp)
           reference_counts_print_plainly eq_refl).
Defined.

Lemma cancel_undoes_create_witness :
  exists c m',
    @createSchedule Sample.host "https://y/logs" "hourly"
      Sample.every_30_minutes None None
      (@run_commands Sample.host Sample.two_creates (started 0))
    = (Returned c, m')
    /\ cancel_success (fst (cancelSchedule (created_id c) m')) = true
    /\ schedules (snd (cancelSchedule (created_id c) m'))
       = schedules (@run_commands Sample.host Sample.two_creates (started 0)).
Proof.
  apply (@cancel_undoes_create Sample.host Sample.two_creates 0
           "https://y/logs" "hourly" Sample.every_30_minutes None None
           " `*/30 * * * *` " reference_counts_print_plainly eq_refl).
Defined.

(** ** The analysis tool *)

Lemma after_open_skips (pre rest : string) :
  contains "{" pre = false -> after_open (pre ++ String "{" rest) = Some rest.
Proof.
  induction pre as [|c pre IH]; cbn [contains append after_open]; intros Hc.
  - reflexivity.
  - apply orb_false_elim in Hc as [Hc Hpre]. rewrite Hc. now apply IH.
Qed.

Lemma to_first_close_stops (mid post : string) :
  contains "}" mid = false ->
  to_first_close (mid ++ String "}" post) = Some (mid ++ "}").
Proof.
  induction mid as [|c mid IH]; cbn [contains append to_first_close]; intros Hc.
  - reflexivity.
  - apply orb_false_elim in Hc as [Hc Hmid]. rewrite Hc, IH by exact Hmid.
    reflexivity.
Qed.

Lemma to_last_close_none (s : string) :
  contains "}" s = false -> to_last_close s = None.
Proof.
  induction s as [|c s IH]; cbn [contains to_last_close]; intros Hc; [reflexivity|].
  apply orb_false_elim in Hc as [Hc Hs]. now rewrite IH, Hc.
Qed.

Lemma to_last_close_reaches (mid post : string) :
  contains "}" post = false ->
  to_last_close (mid ++ String "}" post) = Some (mid ++ "}").
Proof.
  intros Hpost. induction mid as [|c mid IH]; cbn [append to_last_close].
  - now rewrite to_last_close_none.
  - now rewrite IH.
Qed.

(** The lazy pattern finds the first object that has no closing brace
    inside, whatever surrounds it. *)
Lemma match_lazy_wrapped (pre mid post : string) :
  contains "{" pre = false -> contains "}" mid = false ->
  match_lazy (pre ++ "{" ++ mid ++ "}" ++ post) = Some ("{" ++ mid ++ "}").
Proof.
  intros Hpre Hmid. unfold match_lazy.
  change (pre ++ "{" ++ mid ++ "}" ++ post)
    with (pre ++ String "{" (mid ++ String "}" post)).
  now rewrite after_open_skips, to_first_close_stops.
Qed.

(** The greedy pattern finds the text from the first opening brace to the
    last closing brace. *)
Lemma match_greedy_wrapped (pre mid post : string) :
  contains "{" pre = false -> contains "}" post = false ->
  match_greedy (pre ++ "{" ++ mid ++ "}" ++ post) = Some ("{" ++ mid ++ "}").
Proof.
  intros Hpre Hpost. unfold match_greedy.
  change (pre ++ "{" ++ mid ++ "}" ++ post)
    with (pre ++ String "{" (mid ++ String "}" post)).
  now rewrite after_open_skips, to_last_close_reaches.
Qed.

Section AnalyserFacts.
Context {H : Host}.

(** X6: [parseTimeRangeWithAI] reads the range out of an answer that wraps
    it in other text: when the first braces of the answer enclose an object
    with a truthy [from] and [to], these two values are the range, as they
    are; they are not checked to be dates. *)
Theorem parseTimeRange_reads_wrapped_json (ag : analyser) (text pre mid post : string)
    (k : nat) (parsed : json) :
  text <> "" ->
  ag (TimeRangePrompt (now_iso k) text) = inr (Some (pre ++ "{" ++ mid ++ "}" ++ post)) ->
  contains "{" pre = false ->
  contains "}" mid = false ->
  JSON_parse ("{" ++ mid ++ "}") = inr parsed ->
  truthy (prop "from" parsed) = true ->
  truthy (prop "to" parsed) = true ->
  parseTimeRangeWithAI ag (Some text) k
  = (Returned (mkRange (prop "from" parsed) (prop "to" parsed)), S k).
Proof.
  intros Hne Hag Hpre Hmid Hparse Hfrom Hto.
  unfold parseTimeRangeWithAI, given.
  destruct (String.eqb_spec text "") as [-> | _]; [congruence|].
  rewrite Hag. unfold read_time_range.
  rewrite (match_lazy_wrapped pre mid post Hpre Hmid), Hparse.
  assert (Hget : forall key, get_prop key parsed = inr (prop key parsed))
    by (intros key; destruct parsed; try reflexivity; discriminate Hfrom).
  now rewrite !Hget, Hfrom, Hto.
Qed.

(** X7: a range that [parseTimeRangeWithAI] returns is never half open:
    either no range was asked for and both bounds are [null], or both bounds
    are truthy values of the answer. *)
Theorem parseTimeRange_never_half_open (ag : analyser) (timeRangeStr : option string)
    (k k' : nat) (range : time_range) :
  parseTimeRangeWithAI ag timeRangeStr k = (Returned range, k') ->
  (given timeRangeStr = None /\ range = mkRange None None /\ k' = k)
  \/ (truthy (range_from range) = true /\ truthy (range_to range) = true
      /\ k' = S k).
Proof.
  unfold parseTimeRangeWithAI.
  destruct (given timeRangeStr) as [text|].
  2: { intros [= <- <-]. left. repeat split. }
  destruct (ag (TimeRangePrompt (now_iso k) text)) as [e | answer]; [discriminate|].
  unfold read_time_range.
  destruct answer as [t|]; [|discriminate].
  destruct (match_lazy t) as [jsonMatch|]; [|discriminate].
  destruct (JSON_parse jsonMatch) as [m | parsed]; [discriminate|].
  destruct (get_prop "from" parsed) as [e | from]; [discriminate|].
  destruct (truthy from) eqn:Hfrom; cbn [negb]; [|discriminate].
  destruct (get_prop "to" parsed) as [e | to]; [discriminate|].
  destruct (truthy to) eqn:Hto; cbn [negb]; [|discriminate].
  intros [= <- <-]. right. repeat split; assumption.
Qed.

Lemma getLogs_refused (from to : option string) (url : string)
    (authToken : option string) (fetch : network) (r : fetch_response) :
  fetch (logs_request from to url authToken) = inr r ->
  resp_status r = 401 \/ resp_status r = 403 ->
  exists e, getLogs from to url authToken fetch = Threw e /\ auth_required e = true.
Proof.
  intros Hfetch Hs. unfold getLogs. rewrite Hfetch.
  assert (Hok : resp_ok r = false)
    by (unfold resp_ok; destruct Hs as [-> | ->]; reflexivity).
  assert (Hauth : ((resp_status r =? 401) || (resp_status r =? 403))%nat = true)
    by (destruct Hs as [-> | ->]; reflexivity).
  rewrite Hok, Hauth. cbn [negb]. eexists. split; reflexivity.
Qed.

(** X8: the refusal of the log source reaches the caller of the workflow
    step as it is: once the time range is read (the step asks for
    [last 1 hour] when it is given none), a source that answers 401 or 403
    makes the step throw the failure that asks for a token, and the model is
    not asked for an analysis. *)
Theorem analyzeLogsStep_surfaces_refusal (input : step_input) (ag : analyser)
    (fetch : network) (r : fetch_response) (k k1 : nat) (range : time_range) :
  parseTimeRangeWithAI ag
    (Some match given (input_timeRange input) with
          | Some text => text
          | None => "last 1 hour"
          end) k
  = (Returned range, k1) ->
  fetch (logs_request (bound_text (range_from range)) (bound_text (range_to range))
           (input_endpoint input) (input_authToken input))
  = inr r ->
  resp_status r = 401 \/ resp_status r = 403 ->
  exists e,
    analyzeLogsStep (Some input) (Some ag) fetch k = (Threw e, k1)
    /\ auth_required e = true.
Proof.
  intros Hp Hfetch Hs. unfold analyzeLogsStep, logAnalyserTool. rewrite Hp.
  destruct (getLogs_refused _ _ _ _ fetch r Hfetch Hs) as (e & Hg & He).
  exists e. rewrite Hg. split; [reflexivity | exact He].
Qed.

(** X9: without a time range the tool asks the model for nothing before the
    fetch, asks the source for [url?from=null&to=null], and returns what the
    model's answer holds between its first opening and its last closing
    brace, parsed, whatever value that is: it is not checked against the
    output schema. *)
Theorem logAnalyserTool_returns_model_json (endpoint : string)
    (authToken timeRangeStr : option string) (ag : analyser) (fetch : network)
    (k : nat) (r : fetch_response) (pieces : list string) (logsData analysis : json)
    (pre mid post : string) :
  given timeRangeStr = None ->
  fetch (mkRequest (endpoint ++ "?from=null&to=null") "POST"
           (req_headers (logs_request None None endpoint authToken)))
  = inr r ->
  resp_ok r = true ->
  resp_body r = Some pieces ->
  JSON_parse (String.concat "" pieces) = inr logsData ->
  ag (AnalysisPrompt endpoint (mkRange None None)
        match logsData with JArr items => List.length items | _ => 0 end
        (now_iso k) (JSON_stringify logsData 2) (now_iso (S k)))
  = inr (Some (pre ++ "{" ++ mid ++ "}" ++ post)) ->
  contains "{" pre = false ->
  contains "}" post = false ->
  JSON_parse ("{" ++ mid ++ "}") = inr analysis ->
  logAnalyserTool endpoint authToken timeRangeStr (Some ag) fetch k
  = (Returned analysis, S (S k)).
Proof.
  intros Hgiven Hfetch Hok Hbody Hlogs Hag Hpre Hpost Hparse.
  unfold logAnalyserTool, parseTimeRangeWithAI. rewrite Hgiven.
  cbn [range_from range_to bound_text]. unfold getLogs.
  change (logs_request None None endpoint authToken)
    with (mkRequest (endpoint ++ "?from=null&to=null") "POST"
            (req_headers (logs_request None None endpoint authToken))).
  rewrite Hfetch, Hok, Hbody, Hlogs. cbn [negb]. rewrite Hag.
  unfold read_analysis.
  now rewrite (match_greedy_wrapped pre mid post Hpre Hpost), Hparse.
Qed.

End AnalyserFacts.

Lemma parseTimeRange_reads_wrapped_json_witness :
  @parseTimeRangeWithAI Sample.host Sample.model (Some "last hour") 0
  = (Returned (mkRange (Some (JStr "2025-11-03T09:30:00.000Z"))
                 (Some (JStr "2025-11-03T10:30:00.000Z"))),
     1).
Proof.
  apply (@parseTimeRange_reads_wrapped_json Sample.host Sample.model "last hour"
           ("```json" ++ nl) Sample.range_inside (nl ++ "```") 0
           (JObj [("from", JStr "2025-11-03T09:30:00.000Z");
                  ("to", JStr "2025-11-03T10:30:00.000Z")]));
    try reflexivity.
  discriminate.
Defined.

Lemma parseTimeRange_never_half_open_witness :
  (given (Some "last hour") = None
   /\ mkRange (Some (JStr "2025-11-03T09:30:00.000Z"))
        (Some (JStr "2025-11-03T10:30:00.000Z"))
      = mkRange None None
   /\ 1 = 0)
  \/ (truthy (Some (JStr "2025-11-03T09:30:00.000Z")) = true
      /\ truthy (Some (JStr "2025-11-03T10:30:00.000Z")) = true
      /\ 1 = 1).
Proof.
  apply (@parseTimeRange_never_half_open Sample.host Sample.model
           (Some "last hour") 0 1
           (mkRange (Some (JStr "2025-11-03T09:30:00.000Z"))
              (Some (JStr "2025-11-03T10:30:00.000Z")))).
  reflexivity.
Defined.

Lemma analyzeLogsStep_surfaces_refusal_witness :
  exists e,
    @analyzeLogsStep Sample.host (Some (mkStepInput "https://x/logs" None None))
      (Some Sample.model) (Sample.answers Sample.forbidden) 0
    = (Threw e, 1)
    /\ auth_required e = true.
Proof.
  apply (@analyzeLogsStep_surfaces_refusal Sample.host
           (mkStepInput "https://x/logs" None None) Sample.model
           (Sample.answers Sample.forbidden) Sample.forbidden 0 1
           (mkRange (Some (JStr "2025-11-03T09:30:00.000Z"))
              (Some (JStr "2025-11-03T10:30:00.000Z"))));
    [reflexivity | reflexivity | right; reflexivity].
Defined.

Lemma logAnalyserTool_returns_model_json_witness :
  @logAnalyserTool Sample.host "https://x/logs" None None (Some Sample.model)
    (Sample.answers Sample.no_logs) 0
  = (Returned (JObj [("status", JStr "Sick"); ("note", JObj [])]), 2).
Proof.
  apply (@logAnalyserTool_returns_model_json Sample.host "https://x/logs" None None
           Sample.model (Sample.answers Sample.no_logs) 0 Sample.no_logs
           ["["; "]"] (JArr []) (JObj [("status", JStr "Sick"); ("note", JObj [])])
           "Here you go: " Sample.verdict_inside " (done)");
    reflexivity.
Defined.

(** ** The logger and the log, further *)

Section LoggerUse.
Context {H : Host}.


(** X11: a query on a log file that does not exist is answered 500 and,
    the disk being writable, leaves a log file behind: it holds one entry,
    the ERROR about the failed read, its status the error of the file
    system; the query without bounds that follows is answered 200 with this
    entry. *)
Theorem failed_query_creates_the_log (from to : option string) (cuts cuts' : list nat)
    (w : world) :
  log_file w = Missing ->
  disk_writable w = true ->
  let report :=
    JSON_stringify
      (JArr [JObj [("timestamp", JStr (now_iso (S (tick w))));
                   ("level", JStr "ERROR");
                   ("status", exn_json ENOENT);
                   ("message",
                    JStr (if falsy_time (bound_time from) && falsy_time (bound_time to)
                          then "Error streaming log file:"
                          else "Error reading log file:"))]])
      2 in
  exists w',
    logs_handler from to cuts w = (Returned internal_error, w')
    /\ log_file w' = File report
    /\ fst (logs_handler None None cuts' w')
       = Returned (mkResponse 200 (Streamed report)).
Proof.
  intros Hf Hd report.
  set (w0 := add_console (Log, [CReq from to]) w).
  assert (Hlog : forall text,
             logger_error (Some (JStr text)) (Some (exn_json ENOENT)) w0
             = (Returned tt,
                logged Err "ERROR" (Some (JStr text)) (Some (exn_json ENOENT)) [] w0)).
  { intros text. apply logger_with_logged; [exact Hd | right; split; [exact Hf | reflexivity]]. }
  exists (logged Err "ERROR"
            (Some (JStr (if falsy_time (bound_time from) && falsy_time (bound_time to)
                         then "Error streaming log file:"
                         else "Error reading log file:")))
            (Some (exn_json ENOENT)) [] w0).
  split; [|split].
  - unfold logs_handler, bind, console_write, createReadStream. fold w0.
    assert (Hf0 : log_file w0 = Missing) by exact Hf.
    destruct (falsy_time (bound_time from) && falsy_time (bound_time to));
      rewrite Hf0; cbv beta iota; rewrite Hlog; reflexivity.
  - reflexivity.
  - rewrite logs_handler_response. cbn [log_file logged].
    now rewrite logs_response_passthrough.
Qed.

End LoggerUse.

Section LogsUse.
Context {H : Host}.

Lemma fold_on_data_no_array (a b : option (option Z)) (chunks : list string) :
  forall buf,
    forallb no_array (reads buf chunks) = true ->
    fold_left (on_data a b) chunks (mkStream buf true false "")
    = mkStream (buf ++ String.concat "" chunks) true false "".
Proof.
  induction chunks as [|c rest IH]; intros buf Hall.
  - cbn. now rewrite append_nil_r.
  - cbn [reads forallb] in Hall. apply andb_prop in Hall as [Hc Hrest].
    cbn [fold_left].
    assert (Hstep : on_data a b (mkStream buf true false "") c
                    = mkStream (buf ++ c) true false "").
    { unfold on_data. cbn [buffer isFirstLog arrayStarted written].
      unfold no_array in Hc.
      destruct (JSON_parse (buf ++ c)) as [m | v]; [reflexivity|].
      destruct v; try reflexivity; discriminate. }
    rewrite Hstep, (IH _ Hrest), concat_cons, append_assoc. reflexivity.
Qed.

(** X12: a store that never reads as an array (text that is not JSON, or
    JSON that is no array) is hidden by the filtering reader and shown by
    the other: with a bound in effect the query is answered 200 with [[]],
    without one it is answered 200 with the text of the file as it is. *)
Theorem broken_store_reads (from to : option string) (cuts : list nat) (w : world)
    (text : string) :
  log_file w = File text ->
  forallb no_array (reads "" (chunk_by cuts text)) = true ->
  fst (logs_handler from to cuts w)
  = Returned
      (mkResponse 200
         (Streamed (if falsy_time (bound_time from) && falsy_time (bound_time to)
                    then text else "[]"))).
Proof.
  intros Hf Hall. rewrite logs_handler_response, Hf. unfold logs_response.
  destruct (falsy_time (bound_time from) && falsy_time (bound_time to)).
  - now rewrite concat_chunk_by.
  - now rewrite (fold_on_data_no_array _ _ _ "" Hall).
Qed.

Lemma on_data_whole (a b : option (option Z)) (before piece : string)
    (first started : bool) (out : string) :
  on_data a b (mkStream before first started out) piece
  = on_data a b (mkStream "" first started out) (before ++ piece).
Proof. reflexivity. Qed.

(** X13: the pieces the file is read in do not show in the response: when
    no buffer before the last is a complete JSON text, the response is the
    one of reading the file in one piece. *)
Theorem chunking_does_not_show (from to : option string) (cuts : list nat) (w : world)
    (text : string) :
  log_file w = File text ->
  partial_reads_fail (chunk_by cuts text) = true ->
  fst (logs_handler from to cuts w) = fst (logs_handler from to [] w).
Proof.
  intros Hf Hpartial. rewrite !logs_handler_response, Hf. unfold logs_response.
  rewrite !concat_chunk_by.
  destruct (falsy_time (bound_time from) && falsy_time (bound_time to));
    [reflexivity|].
  do 3 f_equal. destruct text as [|c r].
  { destruct cuts; reflexivity. }
  destruct (fold_on_data_partial (bound_time from) (bound_time to)
              (chunk_by cuts (String c r)) ""
              (chunk_by_not_nil cuts (String c r) ltac:(discriminate)) Hpartial)
    as (before & piece & Hcat & Hfold).
  rewrite concat_chunk_by in Hcat. cbn [append] in Hcat.
  rewrite Hfold, on_data_whole, Hcat. reflexivity.
Qed.

Lemma forEach_log_app (a b : option (option Z)) (logs more : list json) :
  forall st st',
    forEach_log a b logs st = (None, st') ->
    forEach_log a b (logs ++ more)%list st = forEach_log a b more st'.
Proof.
  induction logs as [|log rest IH]; intros st st' Hrun; cbn [forEach_log app] in *.
  - now injection Hrun as ->.
  - destruct (each_log a b log st) as [e | st1]; [discriminate|]. now apply IH.
Qed.

(** X14: a [null] among the logs cuts the response short: with a bound in
    effect, the entries before the first [null] that pass the filter are
    written, the array is closed, and no entry after the [null] is. *)
Theorem null_cuts_the_response (from to : option string) (cuts : list nat) (w : world)
    (text : string) (good rest : list json) :
  log_file w = File text ->
  text <> "" ->
  JSON_parse text = inr (JArr (good ++ JNull :: rest)%list) ->
  partial_reads_fail (chunk_by cuts text) = true ->
  forallb is_entry good = true ->
  falsy_time (bound_time from) && falsy_time (bound_time to) = false ->
  fst (logs_handler from to cuts w)
  = Returned
      (mkResponse 200
         (Streamed
            (array_text
               (filter (emitted (bound_time from) (bound_time to)) good)))).
Proof.
  intros Hf Hne Hparse Hpartial Hgood Hbound.
  rewrite logs_handler_response, Hf. unfold logs_response. rewrite Hbound.
  do 3 f_equal.
  destruct (fold_on_data_partial (bound_time from) (bound_time to)
              (chunk_by cuts text) "" (chunk_by_not_nil cuts text Hne) Hpartial)
    as (before & piece & Hcat & Hfold).
  rewrite concat_chunk_by in Hcat. cbn [append] in Hcat.
  rewrite Hfold. unfold on_data. cbn [buffer isFirstLog arrayStarted written].
  rewrite Hcat, Hparse.
  rewrite (forEach_log_app _ _ good (JNull :: rest) _ _
             (forEach_log_entries _ _ good Hgood _)).
  cbn [forEach_log each_log buffer isFirstLog arrayStarted written on_end append].
  unfold array_text. now rewrite tail_text_concat.
Qed.

End LogsUse.

Section OversizedStore.
Context {H : Host}.

Hypothesis parse_stringify :
  forall items : list json,
    JSON_parse (JSON_stringify (JArr items) 2) = inr (JArr items).

(** X15: one append cuts a store of any size: on a host that reads back
    what it wrote, after [writeToFile] on a store [old] the store holds the
    last 488 entries of [old], in their order, and then the new entry; it
    has at most 489 entries however long [old] was. *)
Theorem append_cuts_any_store (log : log_arg) (w : world) (old : list json) :
  disk_writable w = true ->
  stored w = Some old ->
  let kept := (last_n 488 old ++ [messageObj (now_iso (tick w)) log])%list in
  stored (snd (writeToFile log w)) = Some kept
  /\ List.length kept = S (Nat.min 488 (List.length old))
  /\ List.length kept <= 489.
Proof.
  intros Hd Hs kept.
  destruct (stored_after_append parse_stringify log w old Hd (or_introl Hs))
    as (Hstored & _ & _).
  cbv zeta in Hstored. rewrite <- last_n_snoc in Hstored.
  split; [exact Hstored|].
  unfold kept. rewrite length_app, last_n_length. cbn [List.length]. lia.
Qed.

End OversizedStore.

Section CronFacts.
Context {H : Host}.

Lemma strip_quotes_clean (s : string) (c : ascii) :
  c = ascii_of_nat 96 \/ c = ascii_of_nat 39 \/ c = ascii_of_nat 34 ->
  contains c (strip_quotes s) = false.
Proof.
  intros Hc. induction s as [|d s IH]; cbn [strip_quotes contains]; [reflexivity|].
  destruct ((nat_of_ascii d =? 96) || (nat_of_ascii d =? 39)
            || (nat_of_ascii d =? 34))%nat eqn:Hd; [exact IH|].
  cbn [contains]. rewrite IH, orb_false_r.
  apply Ascii.eqb_neq. intros ->.
  destruct Hc as [-> | [-> | ->]]; discriminate.
Qed.

(** X16: the cron expression a successful [createSchedule] returns and
    stores holds no backquote, apostrophe or double quote, whatever the
    interpreter answered. *)
Theorem cron_expression_has_no_quotes (ep iv : string) (ag : agent)
    (opt_authToken opt_timeRange : option string) (m m' : ScheduleManager)
    (c : created) (quote : ascii) :
  createSchedule ep iv ag opt_authToken opt_timeRange m = (Returned c, m') ->
  quote = ascii_of_nat 96 \/ quote = ascii_of_nat 39 \/ quote = ascii_of_nat 34 ->
  contains quote (created_cronExpression c) = false
  /\ exists config,
       getSchedule (created_id c) m' = Some config
       /\ cronExpression config = created_cronExpression c.
Proof.
  intros Hc Hq. unfold createSchedule, parseToCronExpression in Hc.
  destruct (ag (mkPrompt (now_iso (readings m)) iv)) as [e | [text|]];
    try discriminate.
  injection Hc as <- <-. cbn [created_cronExpression created_id].
  split; [now apply strip_quotes_clean|].
  unfold getSchedule. cbn [schedules]. rewrite map_get_set.
  eexists. split; reflexivity.
Qed.

End CronFacts.

(** *** On the reference host *)


Lemma failed_query_creates_the_log_witness :
  log_file Sample.fresh = Missing
  /\ disk_writable Sample.fresh = true
  /\ exists w' report,
       @logs_handler Sample.host (Some "2025-11-03T10:30:00.000Z") None [] Sample.fresh
       = (Returned internal_error, w')
       /\ log_file w' = File report
       /\ fst (@logs_handler Sample.host None None [7] w')
          = Returned (mkResponse 200 (Streamed report)).
Proof.
  split; [reflexivity|]. split; [reflexivity|].
  destruct (@failed_query_creates_the_log Sample.host
              (Some "2025-11-03T10:30:00.000Z") None [] [7] Sample.fresh
              eq_refl eq_refl)
    as (w' & Hrun & Hfile & Hnext).
  exists w'. eexists. split; [exact Hrun|]. split; [exact Hfile | exact Hnext].
Defined.

Lemma broken_store_reads_witness :
  log_file Sample.corrupt = File "not json"
  /\ fst (@logs_handler Sample.host (Some "2025-11-03T10:30:00.000Z") None [2]
            Sample.corrupt)
     = Returned (mkResponse 200 (Streamed "[]"))
  /\ fst (@logs_handler Sample.host None None [2] Sample.corrupt)
     = Returned (mkResponse 200 (Streamed "not json")).
Proof.
  split; [reflexivity|]. split.
  - apply (@broken_store_reads Sample.host (Some "2025-11-03T10:30:00.000Z") None [2]
             Sample.corrupt "not json"); reflexivity.
  - apply (@broken_store_reads Sample.host None None [2] Sample.corrupt "not json");
      reflexivity.
Defined.

Lemma chunking_does_not_show_witness :
  @partial_reads_fail Sample.host
    (chunk_by [5; 40] (Reference.stringify (JArr [Sample.untimed; Sample.early; Sample.late]) 2))
  = true
  /\ fst (@logs_handler Sample.host (Some "2025-11-03T10:30:00.000Z") None [5; 40]
            Sample.stocked)
     = fst (@logs_handler Sample.host (Some "2025-11-03T10:30:00.000Z") None []
              Sample.stocked).
Proof.
  split; [reflexivity|].
  apply (@chunking_does_not_show Sample.host (Some "2025-11-03T10:30:00.000Z") None
           [5; 40] Sample.stocked
           (Reference.stringify (JArr [Sample.untimed; Sample.early; Sample.late]) 2));
    reflexivity.
Defined.

Lemma null_cuts_the_response_witness :
  fst (@logs_handler Sample.host (Some "2025-11-03T10:00:00.000Z") None [9]
         Sample.holed)
  = Returned (mkResponse 200 (Streamed (@array_text Sample.host [Sample.early]))).
Proof.
  apply (@null_cuts_the_response Sample.host (Some "2025-11-03T10:00:00.000Z") None [9]
           Sample.holed
           (Reference.stringify (JArr [Sample.early; JNull; Sample.late]) 2)
           [Sample.early] [Sample.late]);
    try reflexivity; discriminate.
Defined.

Lemma append_cuts_any_store_witness :
  @stored Sample.host Sample.crowded = Some (repeat Sample.early 600)
  /\ @stored Sample.host (snd (@writeToFile Sample.host Sample.hello Sample.crowded))
     = Some (last_n 488 (repeat Sample.early 600)
             ++ [messageObj (@now_iso Sample.host 0) Sample.hello])%list.
Proof.
  assert (Hs : @stored Sample.host Sample.crowded = Some (repeat Sample.early 600)).
  { unfold stored, Sample.crowded. cbn [log_file Sample.host Reference.host JSON_parse].
    now rewrite ReferenceFacts.parse_text_stringify. }
  split; [exact Hs|].
  apply (@append_cuts_any_store Sample.host
           (fun items => ReferenceFacts.parse_text_stringify (JArr items) 2)
           Sample.hello Sample.crowded (repeat Sample.early 600) eq_refl Hs).
Defined.

Lemma cron_expression_has_no_quotes_witness :
  exists c m',
    @createSchedule Sample.host "https://x/logs" "every 30 minutes"
      Sample.every_30_minutes None None Sample.manager0
    = (Returned c, m')
    /\ contains (ascii_of_nat 96) (created_cronExpression c) = false.
Proof.
  eexists. eexists. split; [reflexivity|].
  refine (proj1 (@cron_expression_has_no_quotes Sample.host "https://x/logs"
                   "every 30 minutes" Sample.every_30_minutes None None
                   Sample.manager0 _ _ (ascii_of_nat 96) eq_refl (or_introl eq_refl))).
Defined.

(** ** The tools of the registry *)

Section CronToolFacts.
Context {H : Host}.





Lemma prefix_append (a b : string) : String.prefix a (a ++ b) = true.
Proof.
  induction a as [|c a IH]; cbn [String.prefix append]; [now destruct b|].
  destruct (ascii_dec c c); [exact IH | congruence].
Qed.

(** X18: the create tool reports what it did, and does not throw. A
    failure is the missing agent or a failure of [createSchedule], and
    leaves the schedules and the counter as they were; a success has filed
    one configuration under the identifier it returns, with the endpoint,
    the interval, the token and the time range of the call (or
    [last 1 hour]), and the cron expression it returns. *)
Theorem create_tool_reports_what_it_did (context : create_context)
    (ag : option agent) (m : ScheduleManager) :
  match createScheduleTool context ag m with
  | (CreateFailed error, m') =>
      (error = "Log analyser agent not found in Mastra instance"
       \/ String.prefix "Failed to create schedule: " error = true)
      /\ schedules m' = schedules m
      /\ scheduleCounter m' = scheduleCounter m
  | (CreateSucceeded result, m') =>
      exists config,
        getSchedule (created_id result) m' = Some config
        /\ id config = created_id result
        /\ endpoint config = ctx_endpoint context
        /\ interval config = ctx_interval context
        /\ cronExpression config = created_cronExpression result
        /\ authToken config = ctx_authToken context
        /\ timeRange config = Some (timeRange_or_default (ctx_timeRange context))
        /\ scheduleCounter m' = S (scheduleCounter m)
  end.
Proof.
  unfold createScheduleTool. destruct ag as [a|]; [|now repeat split; try left].
  unfold createSchedule, parseToCronExpression.
  destruct (a (mkPrompt (now_iso (readings m)) (ctx_interval context)))
    as [e | [text|]].
  - split; [right; apply prefix_append | split; reflexivity].
  - eexists. unfold getSchedule. cbn [schedules created_id]. rewrite map_get_set.
    repeat split.
  - split; [right; apply prefix_append | split; reflexivity].
Qed.

End CronToolFacts.

(** ** The A2A route *)

Section A2AFacts.
Context {H : Host}.
Variable randomUUID : nat -> string.

Lemma answer_returns (agentId : string) (agent : a2a_agent) (requestId : json)
    (msgs : list json) (context task metadata configuration : option json) (k : nat)
    (resp : response) (lines : list route_line) :
  answer randomUUID agentId agent requestId msgs context task metadata configuration k
  = inr (resp, lines) ->
  exists result,
    resp = mkResponse 200
             (Sent (JObj [("jsonrpc", JStr "2.0"); ("id", requestId);
                          ("result", result); ("error", JNull)])).
Proof.
  unfold answer.
  destruct (map_exn _ msgs) as [e | mm]; [discriminate|].
  destruct (agent mm) as [e | response]; [discriminate|].
  destruct (history_of _ _ _ _) as [e | [items n3]]; [discriminate|].
  intros Heq. injection Heq as <- _. eexists. reflexivity.
Qed.

(** X19: the route answers every request, and in JSON-RPC: a 200 with a
    result and a null error, a 400 or a 404 with an error of a code and a
    message, or a 500 with the error -32603 and the message of the
    exception as its details. The 200, the 400 and the 404 carry the [id] of
    the request ([null] when it had none); the 500 carries [null], also for
    a request that had one, and is the only answer with a line on the
    console of errors. *)
Theorem a2a_answers_in_json_rpc (mastra : agent_registry) (agentId raw : string)
    (k : nat) :
  let answered := a2aAgentRoute randomUUID mastra agentId raw k in
  let status := status_code (fst answered) in
  exists v,
    res_body (fst answered) = Sent v
    /\ prop "jsonrpc" v = Some (JStr "2.0")
    /\ ((status = 200
         /\ prop "error" v = Some JNull
         /\ (exists result, prop "result" v = Some result)
         /\ exists body,
              JSON_parse raw = inr body
              /\ prop "id" v = Some (or_else (prop "id" body) JNull))
        \/ ((status = 400 \/ status = 404)
            /\ prop "result" v = None
            /\ (exists code text,
                  prop "error" v
                  = Some (JObj [("code", JNum code); ("message", JStr text)]))
            /\ snd answered = []
            /\ exists body,
                 JSON_parse raw = inr body
                 /\ prop "id" v = Some (or_else (prop "id" body) JNull))
        \/ (status = 500
            /\ prop "result" v = None
            /\ prop "id" v = Some JNull
            /\ exists error,
                 snd answered = [RouteErrorLine error]
                 /\ prop "error" v
                    = Some (JObj [("code", JNum (-32603));
                                  ("message", JStr "Internal error");
                                  ("data",
                                   JObj [("details", JStr (exn_message error))])]))).
Proof.
  cbv zeta. unfold a2aAgentRoute.
  assert (Hfail : forall error,
             exists v,
               Sent (rpc_error JNull (-32603) "Internal error"
                       (Some (JObj [("details", JStr (exn_message error))])))
               = Sent v
               /\ prop "jsonrpc" v = Some (JStr "2.0")
               /\ prop "result" v = None
               /\ prop "id" v = Some JNull
               /\ prop "error" v
                  = Some (JObj [("code", JNum (-32603));
                                ("message", JStr "Internal error");
                                ("data",
                                 JObj [("details", JStr (exn_message error))])])).
  { intros error. eexists. repeat split. }
  assert (Hreject : forall status rpc_id code text,
             status = 400 \/ status = 404 ->
             exists v,
               Sent (rpc_error rpc_id code text None) = Sent v
               /\ prop "jsonrpc" v = Some (JStr "2.0")
               /\ prop "result" v = None
               /\ (exists code' text',
                     prop "error" v
                     = Some (JObj [("code", JNum code'); ("message", JStr text')]))
               /\ prop "id" v = Some rpc_id).
  { intros status rpc_id code text _. eexists. repeat split.
    exists code, text. reflexivity. }
  destruct (handler_body randomUUID mastra agentId raw k) as [error | [resp lines]] eqn:Hbody.
  - destruct (Hfail error) as (v & Hv & Hrpc & Hres & Hid & Herr).
    exists v. cbn [fst snd res_body status_code]. split; [exact Hv|].
    split; [exact Hrpc|]. right. right. split; [reflexivity|].
    split; [exact Hres|]. split; [exact Hid|]. exists error. now split.
  - unfold handler_body in Hbody.
    destruct (JSON_parse raw) as [m | body] eqn:Hparse; [discriminate|].
    assert (Hrest :
              (if negb (is_string "2.0" (prop "jsonrpc" body))
                  || negb (truthy (prop "id" body))
               then
                 inr (mkResponse 400
                        (Sent (rpc_error (or_else (prop "id" body) JNull) (-32600)
                                 ("Invalid Request: jsonrpc must be " ++ q "2.0"
                                  ++ " and id is required")
                                 None)),
                      [])
               else
                 match mastra agentId with
                 | inl e => inl e
                 | inr None =>
                     inr (mkResponse 404
                            (Sent (rpc_error (or_else (prop "id" body) JNull) (-32602)
                                     ("Agent '" ++ agentId ++ "' not found") None)),
                          [])
                 | inr (Some agent) =>
                     let given_params :=
                       if truthy (prop "params" body) then prop "params" body
                       else None in
                     if truthy (opt_prop "message" given_params)
                     then
                       answer randomUUID agentId agent (or_else (prop "id" body) JNull)
                         [or_else (opt_prop "message" given_params) JNull]
                         (or_opt (opt_prop "contextId" (opt_prop "message" given_params))
                            (opt_prop "contextId" given_params))
                         (or_opt (opt_prop "taskId" (opt_prop "message" given_params))
                            (opt_prop "taskId" given_params))
                         (or_opt (opt_prop "metadata" (opt_prop "message" given_params))
                            (opt_prop "metadata" given_params))
                         (opt_prop "configuration" given_params) k
                     else
                       match opt_prop "messages" given_params with
                       | Some (JArr messagesList) =>
                           answer randomUUID agentId agent
                             (or_else (prop "id" body) JNull) messagesList
                             (opt_prop "contextId" given_params)
                             (opt_prop "taskId" given_params)
                             (opt_prop "metadata" given_params)
                             (opt_prop "configuration" given_params) k
                       | _ =>
                           inr (mkResponse 400
                                  (Sent (rpc_error (or_else (prop "id" body) JNull)
                                           (-32602)
                                           "Invalid params: message or messages is required"
                                           None)),
                                [])
                       end
                 end)
              = inr (resp, lines)).
    { destruct body; try discriminate; exact Hbody. }
    clear Hbody. cbn [fst snd].
    assert (Hanswer : forall agent msgs context task metadata configuration,
               answer randomUUID agentId agent (or_else (prop "id" body) JNull) msgs
                 context task metadata configuration k
               = inr (resp, lines) ->
               exists v,
                 res_body resp = Sent v
                 /\ prop "jsonrpc" v = Some (JStr "2.0")
                 /\ status_code resp = 200
                 /\ prop "error" v = Some JNull
                 /\ (exists result, prop "result" v = Some result)
                 /\ prop "id" v = Some (or_else (prop "id" body) JNull)).
    { intros agent msgs context task metadata configuration Ha.
      apply answer_returns in Ha as (result & ->).
      eexists. repeat split. now exists result. }
    assert (Hrejected : forall status rpc_code text,
               status = 400 \/ status = 404 ->
               inr (mkResponse status
                      (Sent (rpc_error (or_else (prop "id" body) JNull) rpc_code
                               text None)),
                    [])
               = (inr (resp, lines) : exn + response * list route_line) ->
               exists v,
                 res_body resp = Sent v
                 /\ prop "jsonrpc" v = Some (JStr "2.0")
                 /\ (status_code resp = 400 \/ status_code resp = 404)
                 /\ prop "result" v = None
                 /\ (exists code text',
                       prop "error" v
                       = Some (JObj [("code", JNum code); ("message", JStr text')]))
                 /\ lines = []
                 /\ prop "id" v = Some (or_else (prop "id" body) JNull)).
    { intros status rpc_code text Hstatus Heq. injection Heq as <- <-.
      destruct (Hreject status (or_else (prop "id" body) JNull) rpc_code text Hstatus)
        as (v & Hv & Hrpc & Hres & Herr & Hid).
      exists v. cbn [res_body status_code]. repeat split; assumption. }
    assert (Hgood : (exists v,
                       res_body resp = Sent v
                       /\ prop "jsonrpc" v = Some (JStr "2.0")
                       /\ status_code resp = 200
                       /\ prop "error" v = Some JNull
                       /\ (exists result, prop "result" v = Some result)
                       /\ prop "id" v = Some (or_else (prop "id" body) JNull))
                    \/ (exists v,
                          res_body resp = Sent v
                          /\ prop "jsonrpc" v = Some (JStr "2.0")
                          /\ (status_code resp = 400 \/ status_code resp = 404)
                          /\ prop "result" v = None
                          /\ (exists code text',
                                prop "error" v
                                = Some (JObj [("code", JNum code);
                                              ("message", JStr text')]))
                          /\ lines = []
                          /\ prop "id" v = Some (or_else (prop "id" body) JNull))).
    { destruct (negb (is_string "2.0" (prop "jsonrpc" body))
                || negb (truthy (prop "id" body))).
      { right. apply (Hrejected 400 _ _ (or_introl eq_refl) Hrest). }
      destruct (mastra agentId) as [e | [agent|]]; [discriminate | |].
      2:{ right. apply (Hrejected 404 _ _ (or_intror eq_refl) Hrest). }
      cbv zeta in Hrest.
      destruct (truthy (opt_prop "message" _)).
      { left. exact (Hanswer _ _ _ _ _ _ Hrest). }
      destruct (opt_prop "messages" _) as [[ | | | |messagesList| ]|];
        try (right; apply (Hrejected 400 _ _ (or_introl eq_refl) Hrest)).
      left. exact (Hanswer _ _ _ _ _ _ Hrest). }
    destruct Hgood as [(v & Hv & Hrpc & Hst & Herr & Hres & Hid)
                      | (v & Hv & Hrpc & Hst & Hres & Herr & Hlines & Hid)];
      exists v; (split; [exact Hv|]); (split; [exact Hrpc|]).
    + left. repeat split; try assumption. exists body. now split.
    + right. left. repeat split; try assumption. exists body. now split.
Qed.

End A2AFacts.

Section A2AUse.
Context {H : Host}.
Variable randomUUID : nat -> string.


Lemma route_reads_valid_request (mastra : agent_registry) (agentId raw : string)
    (k : nat) (body params : json) (agent : a2a_agent) :
  JSON_parse raw = inr body ->
  is_string "2.0" (prop "jsonrpc" body) = true ->
  truthy (prop "id" body) = true ->
  mastra agentId = inr (Some agent) ->
  prop "params" body = Some params ->
  truthy (Some params) = true ->
  handler_body randomUUID mastra agentId raw k
  = if truthy (prop "message" params)
    then
      answer randomUUID agentId agent (or_else (prop "id" body) JNull)
        [or_else (prop "message" params) JNull]
        (or_opt (opt_prop "contextId" (prop "message" params)) (prop "contextId" params))
        (or_opt (opt_prop "taskId" (prop "message" params)) (prop "taskId" params))
        (or_opt (opt_prop "metadata" (prop "message" params)) (prop "metadata" params))
        (prop "configuration" params) k
    else
      match prop "messages" params with
      | Some (JArr messagesList) =>
          answer randomUUID agentId agent (or_else (prop "id" body) JNull)
            messagesList (prop "contextId" params) (prop "taskId" params)
            (prop "metadata" params) (prop "configuration" params) k
      | _ =>
          inr (mkResponse 400
                 (Sent (rpc_error (or_else (prop "id" body) JNull) (-32602)
                          "Invalid params: message or messages is required" None)),
               [])
      end.
Proof.
  intros Hparse Hrpc Hid Hagent Hparams Htruthy.
  unfold handler_body. rewrite Hparse.
  assert (Hnull : body <> JNull) by (intros ->; discriminate).
  assert (Hopt : forall key, opt_prop key (Some params) = prop key params).
  { intros key. now destruct params. }
  destruct body; try congruence;
    rewrite Hrpc, Hid, Hagent, Hparams; cbn [negb orb]; cbv zeta;
    rewrite Htruthy, !Hopt; reflexivity.
Qed.

(** X20: a message without [parts] costs a run of the agent and fails. For
    a valid request to a known agent whose [message] (an object, or a text)
    has no [parts], the agent is asked, with the content of the message
    read as empty; when it rejects, and also when it answers, the response
    is the internal error 500, with the rejection or with the [TypeError] of
    reading [map] of [undefined]. *)
Theorem a2a_message_without_parts_fails (mastra : agent_registry)
    (agentId raw : string) (k : nat) (body params msg : json) (agent : a2a_agent) :
  JSON_parse raw = inr body ->
  is_string "2.0" (prop "jsonrpc" body) = true ->
  truthy (prop "id" body) = true ->
  mastra agentId = inr (Some agent) ->
  prop "params" body = Some params ->
  prop "message" params = Some msg ->
  truthy (Some msg) = true ->
  prop "parts" msg = None ->
  a2aAgentRoute randomUUID mastra agentId raw k
  = internal_error_of
      match agent [mkMessage (prop "role" msg) ""] with
      | inl rejected => rejected
      | inr _ => reading_of_undefined "map"
      end.
Proof.
  intros Hparse Hrpc Hid Hagent Hparams Hmessage Htruthy Hparts.
  assert (Hp : truthy (Some params) = true).
  { destruct params; try discriminate. reflexivity. }
  unfold a2aAgentRoute.
  rewrite (route_reads_valid_request mastra agentId raw k body params agent
             Hparse Hrpc Hid Hagent Hparams Hp).
  rewrite Hmessage, Htruthy.
  assert (Hmsg : or_else (Some msg) JNull = msg).
  { unfold or_else. now rewrite Htruthy. }
  rewrite Hmsg. unfold answer. cbn [map_exn].
  assert (Hto : to_mastra msg = inr (mkMessage (prop "role" msg) "")).
  { unfold to_mastra, content_of. rewrite Hparts.
    destruct msg; try reflexivity. discriminate. }
  rewrite Hto.
  destruct (agent [mkMessage (prop "role" msg) ""]) as [rejected | response];
    [reflexivity|].
  cbn [history_of]. unfold history_item. rewrite Hparts.
  destruct msg; try reflexivity. discriminate.
Qed.








(** X22: a [message] wins over [messages]. Of two requests that differ
    only in the [messages] of their [params], and have a [message], the
    route makes no difference: the [messages] are not read. *)
Theorem a2a_message_wins_over_messages (mastra : agent_registry)
    (agentId raw1 raw2 : string) (k : nat)
    (fields1 fields2 params1 params2 : list (string * json)) :
  JSON_parse raw1 = inr (JObj fields1) ->
  JSON_parse raw2 = inr (JObj fields2) ->
  assoc "jsonrpc" fields1 = assoc "jsonrpc" fields2 ->
  assoc "id" fields1 = assoc "id" fields2 ->
  assoc "params" fields1 = Some (JObj params1) ->
  assoc "params" fields2 = Some (JObj params2) ->
  (forall key, key <> "messages" -> assoc key params1 = assoc key params2) ->
  truthy (assoc "message" params1) = true ->
  a2aAgentRoute randomUUID mastra agentId raw1 k
  = a2aAgentRoute randomUUID mastra agentId raw2 k.
Proof.
  intros Hparse1 Hparse2 Hrpc Hid Hparams1 Hparams2 Hagree Hmessage.
  unfold a2aAgentRoute, handler_body. rewrite Hparse1, Hparse2.
  cbn [prop]. rewrite Hparams1, Hparams2, <- Hrpc, <- Hid.
  cbn [truthy opt_prop prop]. cbv zeta.
  rewrite <- !(Hagree "message"), <- !(Hagree "contextId"), <- !(Hagree "taskId"),
    <- !(Hagree "metadata"), <- !(Hagree "configuration") by discriminate.
  rewrite Hmessage. reflexivity.
Qed.

End A2AUse.

(** *** The route on the reference host *)

Lemma a2a_message_without_parts_fails_witness :
  @a2aAgentRoute Sample.host Sample.uuid Sample.agents "logAnalyserAgent"
    (Reference.stringify Sample.bare_request 0) 0
  = internal_error_of (reading_of_undefined "map").
Proof.
  apply (@a2a_message_without_parts_fails Sample.host Sample.uuid Sample.agents
           "logAnalyserAgent" (Reference.stringify Sample.bare_request 0) 0
           Sample.bare_request
           (JObj [("message", JObj [("role", JStr "user")])])
           (JObj [("role", JStr "user")]) Sample.quiet);
    reflexivity.
Defined.


Lemma a2a_message_wins_over_messages_witness :
  @a2aAgentRoute Sample.host Sample.uuid Sample.agents "logAnalyserAgent"
    (Reference.stringify (Sample.doubled_request []) 0) 0
  = @a2aAgentRoute Sample.host Sample.uuid Sample.agents "logAnalyserAgent"
      (Reference.stringify (Sample.doubled_request [JNull; Sample.question]) 0) 0.
Proof.
  apply (@a2a_message_wins_over_messages Sample.host Sample.uuid Sample.agents
           "logAnalyserAgent" _ _ 0
           [("jsonrpc", JStr "2.0"); ("id", JStr "r3");
            ("params", JObj [("message", Sample.question); ("messages", JArr [])])]
           [("jsonrpc", JStr "2.0"); ("id", JStr "r3");
            ("params", JObj [("message", Sample.question);
                             ("messages", JArr [JNull; Sample.question])])]
           [("message", Sample.question); ("messages", JArr [])]
           [("message", Sample.question);
            ("messages", JArr [JNull; Sample.question])]);
    try reflexivity.
  intros key Hkey. cbn [assoc].
  destruct (key =? "message"); [reflexivity|].
  destruct (String.eqb_spec key "messages"); [contradiction | reflexivity].
Defined.

